(** * Column re-ordering rebuild of a SQL Server table

    A shallow embedding of [rebuild_table_with_column_reorder.py]: the
    catalog reader with its type-string reconstruction, the column-definition
    renderer, the insertion planner, and the synthesis and execution of the
    CREATE / INSERT..SELECT / DROP / rename sequence.

    Modelling conventions.
    - Python [str] values are [string]s.  [str.lower] and [str.upper] are
      modelled on the ASCII letters; other characters are left unchanged.
    - Catalog integers ([max_length] is a smallint, [precision] and [scale]
      are tinyints) are [Z].  [int(length / 2)] is a float division followed
      by truncation toward zero, which on these magnitudes is [Z.quot].
    - The dictionaries have a fixed key set and become records; keys read
      with [.get] are optional fields.
    - Raised exceptions are the [Err] branch of [result].
    - List objects that are mutated in place live in a store ([gmap] from
      locations to list contents), see [Heap]. *)

From Stdlib Require Import ZArith List String Ascii Bool Lia Permutation DecimalString.
From stdpp Require Import gmap.

Import ListNotations.
Local Open Scope list_scope.
Local Open Scope string_scope.

(** ** Strings *)

Definition lower_ascii (c : ascii) : ascii :=
  let n := nat_of_ascii c in
  if Nat.leb 65 n && Nat.leb n 90 then ascii_of_nat (n + 32) else c.

Definition upper_ascii (c : ascii) : ascii :=
  let n := nat_of_ascii c in
  if Nat.leb 97 n && Nat.leb n 122 then ascii_of_nat (n - 32) else c.

Fixpoint lower (s : string) : string :=
  match s with
  | EmptyString => EmptyString
  | String c s' => String (lower_ascii c) (lower s')
  end.

Fixpoint upper (s : string) : string :=
  match s with
  | EmptyString => EmptyString
  | String c s' => String (upper_ascii c) (upper s')
  end.

(** [x in (a, b, ...)] on strings. *)
Definition str_in (x : string) (xs : list string) : bool :=
  existsb (String.eqb x) xs.

(** [sep.join(parts)]. *)
Definition join (sep : string) (parts : list string) : string :=
  String.concat sep parts.

(** [str(n)] for an integer, as an f-string renders it. *)
Definition str_of_Z (n : Z) : string :=
  NilZero.string_of_int (Z.to_int n).

Definition nl : string := String (ascii_of_nat 10) EmptyString.

(** ** Exceptions *)

Inductive exn : Type :=
| ValueError (msg : string)
| StopIteration
| DatabaseError (sql : string).

Inductive result (A : Type) : Type :=
| Ok (a : A)
| Err (e : exn).
Arguments Ok {A} a.
Arguments Err {A} e.

Definition bind {A B} (r : result A) (k : A -> result B) : result B :=
  match r with
  | Ok a => k a
  | Err e => Err e
  end.

Notation "'do' x <- r ; k" := (bind r (fun x => k))
  (at level 10, x name, r at level 100, k at level 200).

Fixpoint mapM {A B} (f : A -> result B) (l : list A) : result (list B) :=
  match l with
  | [] => Ok []
  | a :: l' => do b <- f a; do bs <- mapM f l'; Ok (b :: bs)
  end.

(** ** Data *)

(** One row of the catalog query of [fetch_ordered_metadata]. *)
Record Row : Type := mkRow {
  column_id : Z;
  column_name : string;
  data_type : string;
  max_length : Z;
  precision : Z;
  scale : Z;
  row_is_nullable : bool;
  row_is_identity : bool;
  default_definition : option string
}.

(** The metadata dict with keys name, type, is_nullable, is_identity,
    default. *)
Record Column : Type := mkColumn {
  col_name : string;
  col_type : string;
  col_is_nullable : bool;
  col_is_identity : bool;
  col_default : option string
}.

(** A new-column spec.  [name], [type], [position] and [anchor] are read by
    subscript and are required; [nullable], [identity] and [default] are
    read with [.get]. *)
Record NewColumn : Type := mkNewColumn {
  nc_name : string;
  nc_type : string;
  nc_nullable : option bool;
  nc_identity : option bool;
  nc_default : option string;
  nc_position : string;
  nc_anchor : string
}.

(** ** fetch_ordered_metadata *)

(** The type string built for one row (lines 51-66). *)
Definition type_str (row : Row) : string :=
  let data_type := upper (data_type row) in
  if str_in data_type ["CHAR"; "NCHAR"; "VARCHAR"; "NVARCHAR"; "BINARY"; "VARBINARY"] then
    if Z.eqb (max_length row) (-1) then
      data_type ++ "(MAX)"
    else
      let length := max_length row in
      let length :=
        if str_in data_type ["NCHAR"; "NVARCHAR"] then Z.quot length 2 else length in
      data_type ++ "(" ++ str_of_Z length ++ ")"
  else if str_in data_type ["DECIMAL"; "NUMERIC"] then
    data_type ++ "(" ++ str_of_Z (precision row) ++ "," ++ str_of_Z (scale row) ++ ")"
  else if str_in data_type ["DATETIME2"; "TIME"; "DATETIMEOFFSET"] then
    data_type ++ "(" ++ str_of_Z (scale row) ++ ")"
  else
    data_type.

Definition column_of_row (row : Row) : Column :=
  {| col_name := column_name row;
     col_type := type_str row;
     col_is_nullable := row_is_nullable row;
     col_is_identity := row_is_identity row;
     col_default := default_definition row |}.

(** The loop over the rows the cursor yields: one dict appended per row. *)
Definition cols_of_rows (rows : list Row) : list Column :=
  fold_left (fun cols row => (cols ++ [column_of_row row])%list) rows [].

(** ** build_col_def *)

(** Truthiness of [col.get("default")]: [None] and the empty string are
    both false. *)
Definition truthy (d : option string) : bool :=
  match d with
  | Some s => negb (String.eqb s "")
  | None => false
  end.

Definition build_col_def (col : Column) : string :=
  let nullable := if col_is_nullable col then "NULL" else "NOT NULL" in
  let identity := if col_is_identity col then " IDENTITY(1,1)" else "" in
  let default :=
    match col_default col with
    | Some d => if truthy (Some d) then " DEFAULT " ++ d else ""
    | None => ""
    end in
  "[" ++ col_name col ++ "] " ++ col_type col ++ identity ++ default ++ " " ++ nullable.

(** ** insert_new_columns *)

(** [next((i for i, c in enumerate(ordered) if c["name"].lower() ==
    anchor.lower()), None)]: the index of the first match. *)
Fixpoint anchor_index (anchor : string) (ordered : list Column) : option nat :=
  match ordered with
  | [] => None
  | c :: rest =>
      if String.eqb (lower (col_name c)) (lower anchor) then Some 0
      else option_map S (anchor_index anchor rest)
  end.

(** [l.insert(i, x)] for [0 <= i]: an index past the end appends. *)
Definition list_insert_at {A} (i : nat) (x : A) (l : list A) : list A :=
  (firstn i l ++ x :: skipn i l)%list.

Definition new_meta (new_col : NewColumn) : Column :=
  {| col_name := nc_name new_col;
     col_type := nc_type new_col;
     col_is_nullable := match nc_nullable new_col with Some b => b | None => true end;
     col_is_identity := match nc_identity new_col with Some b => b | None => false end;
     col_default := nc_default new_col |}.

(** The body of the [for new_col in new_columns] loop, on the working list. *)
Fixpoint insert_loop (ordered : list Column) (new_columns : list NewColumn)
  : result (list Column) :=
  match new_columns with
  | [] => Ok ordered
  | new_col :: rest =>
      let anchor := nc_anchor new_col in
      let pos := nc_position new_col in
      if negb (str_in pos ["before"; "after"]) then
        Err (ValueError "position must be 'before' or 'after'")
      else
        match anchor_index anchor ordered with
        | None => Err (ValueError ("Anchor column '" ++ anchor ++ "' not found"))
        | Some idx =>
            let insert_idx := if String.eqb pos "after" then idx + 1 else idx in
            insert_loop (list_insert_at insert_idx (new_meta new_col) ordered) rest
        end
  end.

(** [ordered = existing_cols.copy()] is a fresh list with the same elements;
    on values the loop starts from [existing_cols] itself. *)
Definition insert_new_columns (existing_cols : list Column) (new_columns : list NewColumn)
  : result (list Column) :=
  insert_loop existing_cols new_columns.

(** ** insert_new_columns on a store of list objects

    [existing_cols] is a reference to a list object; [.copy()] allocates a
    new list object with the same elements and [ordered.insert] updates that
    object in place.  The column dicts themselves are never written by this
    function, so the list contents hold them as values.  [None] is a read
    through a reference that is not allocated. *)

Module Heap.

Abbreviation loc := positive.

Abbreviation store := (gmap positive (list Column)).

(** [src.copy()]: a fresh list object with the elements of [src]. *)
Definition list_copy (h : store) (src : loc) : option (loc * store) :=
  match h !! src with
  | Some cols => let p := fresh (dom h) in Some (p, <[p := cols]> h)
  | None => None
  end.

Fixpoint insert_loop (h : store) (ordered : loc) (new_columns : list NewColumn)
  : option (store * result unit) :=
  match new_columns with
  | [] => Some (h, Ok tt)
  | new_col :: rest =>
      let anchor := nc_anchor new_col in
      let pos := nc_position new_col in
      if negb (str_in pos ["before"; "after"]) then
        Some (h, Err (ValueError "position must be 'before' or 'after'"))
      else
        match h !! ordered with
        | None => None
        | Some cols =>
            match anchor_index anchor cols with
            | None =>
                Some (h, Err (ValueError ("Anchor column '" ++ anchor ++ "' not found")))
            | Some idx =>
                let insert_idx := if String.eqb pos "after" then idx + 1 else idx in
                insert_loop
                  (<[ordered := list_insert_at insert_idx (new_meta new_col) cols]> h)
                  ordered rest
            end
        end
  end.

(** Returns the final store and either the reference to the returned list
    or the raised exception. *)
Definition insert_new_columns (h : store) (existing_cols : loc)
    (new_columns : list NewColumn) : option (store * result loc) :=
  match list_copy h existing_cols with
  | None => None
  | Some (ordered, h1) =>
      match insert_loop h1 ordered new_columns with
      | None => None
      | Some (h2, Ok _) => Some (h2, Ok ordered)
      | Some (h2, Err e) => Some (h2, Err e)
      end
  end.

End Heap.

(** ** The database session

    The cursor is the external collaborator: [rows_of] gives the rows a
    statement yields and [refuses] tells whether the server rejects it.  The
    state threaded through [rebuild_with_inferred_and_inserted_columns] is
    the trace of what has been run on the connection. *)

Inductive event : Type :=
| Execute (sql : string) (params : list string)
| Commit.

Record Cursor : Type := mkCursor {
  rows_of : string -> list string -> list Row;
  refuses : string -> bool
}.

Definition Session (A : Type) : Type := list event -> list event * result A.

Definition ret {A} (a : A) : Session A := fun tr => (tr, Ok a).

Definition sbind {A B} (m : Session A) (k : A -> Session B) : Session B :=
  fun tr =>
    match m tr with
    | (tr', Ok a) => k a tr'
    | (tr', Err e) => (tr', Err e)
    end.

Definition lift {A} (r : result A) : Session A := fun tr => (tr, r).

Notation "x <~ m ;; k" := (sbind m (fun x => k))
  (at level 90, m at level 89, right associativity).
Notation "m ;;; k" := (sbind m (fun _ => k))
  (at level 90, right associativity).

(** [cursor.execute(sql, *params)]. *)
Definition execute (cursor : Cursor) (sql : string) (params : list string)
  : Session (list Row) :=
  fun tr =>
    if refuses cursor sql then (tr, Err (DatabaseError sql))
    else ((tr ++ [Execute sql params])%list, Ok (rows_of cursor sql params)).

(** [conn.commit()]. *)
Definition commit : Session unit := fun tr => ((tr ++ [Commit])%list, Ok tt).

Definition metadata_sql : string :=
  join nl
    [ "";
      "    SELECT";
      "        c.column_id,";
      "        c.name AS column_name,";
      "        t.name AS data_type,";
      "        c.max_length,";
      "        c.precision,";
      "        c.scale,";
      "        c.is_nullable,";
      "        c.is_identity,";
      "        dc.definition AS default_definition";
      "    FROM sys.columns AS c";
      "    INNER JOIN sys.tables AS tb ON c.object_id = tb.object_id";
      "    INNER JOIN sys.types AS t ON c.user_type_id = t.user_type_id";
      "    LEFT JOIN sys.default_constraints AS dc";
      "        ON c.default_object_id = dc.object_id";
      "    WHERE SCHEMA_NAME(tb.schema_id) = ?";
      "      AND tb.name = ?";
      "    ORDER BY c.column_id;";
      "    " ].

(** [fetch_ordered_metadata(cursor, schema, table)]: run the catalog query
    and build one dict per row. *)
Definition fetch_ordered_metadata (cursor : Cursor) (schema table : string)
  : Session (list Column) :=
  rows <~ execute cursor metadata_sql [schema; table] ;;
  ret (cols_of_rows rows).

(** ** rebuild_with_inferred_and_inserted_columns *)

Definition full_name (schema table : string) : string :=
  "[" ++ schema ++ "].[" ++ table ++ "]".

Definition create_sql (full_tmp_table : string) (new_ordered_cols : list Column) : string :=
  let col_defs := map build_col_def new_ordered_cols in
  "CREATE TABLE " ++ full_tmp_table ++ " (" ++ nl ++ "    "
  ++ join ("," ++ nl ++ "    ") col_defs
  ++ nl ++ ");".

Definition insert_cols (new_ordered_cols : list Column) : list string :=
  map (fun c => "[" ++ col_name c ++ "]") new_ordered_cols.

(** [{c["name"].lower() for c in existing_cols}]. *)
Definition existing_names (existing_cols : list Column) : gset string :=
  list_to_set (map (fun c => lower (col_name c)) existing_cols).

(** One iteration of the loop that fills [select_exprs].  [next(...)] without
    a default raises [StopIteration] when no spec matches. *)
Definition select_expr (existing_cols : list Column) (new_columns : list NewColumn)
    (c : Column) : result string :=
  let col_name := col_name c in
  if bool_decide (lower col_name ∈ existing_names existing_cols) then
    Ok ("[" ++ col_name ++ "]")
  else
    match find (fun n => String.eqb (lower (nc_name n)) (lower col_name)) new_columns with
    | None => Err StopIteration
    | Some spec =>
        match nc_default spec with
        | Some default => Ok (default ++ " AS [" ++ col_name ++ "]")
        | None => Ok ("NULL AS [" ++ col_name ++ "]")
        end
    end.

Definition select_exprs (existing_cols : list Column) (new_columns : list NewColumn)
    (new_ordered_cols : list Column) : result (list string) :=
  mapM (select_expr existing_cols new_columns) new_ordered_cols.

Definition has_identity (new_ordered_cols : list Column) : bool :=
  existsb col_is_identity new_ordered_cols.

Definition identity_insert_on (full_tmp_table : string) : string :=
  "SET IDENTITY_INSERT " ++ full_tmp_table ++ " ON;".

Definition identity_insert_off (full_tmp_table : string) : string :=
  "SET IDENTITY_INSERT " ++ full_tmp_table ++ " OFF;".

Definition insert_select (full_table full_tmp_table : string)
    (insert_cols select_exprs : list string) : string :=
  "INSERT INTO " ++ full_tmp_table ++ " (" ++ join ", " insert_cols ++ ")" ++ nl
  ++ "SELECT " ++ join ", " select_exprs ++ nl
  ++ "FROM " ++ full_table ++ " WITH (HOLDLOCK TABLOCKX);".

Definition insert_batch_parts (full_table full_tmp_table : string)
    (new_ordered_cols : list Column) (select_exprs : list string) : list string :=
  ((if has_identity new_ordered_cols then [identity_insert_on full_tmp_table] else [])
   ++ [insert_select full_table full_tmp_table (insert_cols new_ordered_cols) select_exprs]
   ++ (if has_identity new_ordered_cols then [identity_insert_off full_tmp_table] else []))%list.

Definition insert_sql (full_table full_tmp_table : string)
    (new_ordered_cols : list Column) (select_exprs : list string) : string :=
  join nl (insert_batch_parts full_table full_tmp_table new_ordered_cols select_exprs).

Definition drop_sql (full_table : string) : string :=
  "DROP TABLE " ++ full_table ++ ";".

Definition rename_sql (full_tmp_table table : string) : string :=
  "EXEC sp_rename N'" ++ full_tmp_table ++ "', N'" ++ table ++ "', 'OBJECT';".

(** The body of the [with get_connection(...) as conn] block, on the cursor
    of the opened connection. *)
Definition rebuild_with_inferred_and_inserted_columns (cursor : Cursor)
    (schema table : string) (new_columns : list NewColumn) (tmp_suffix : string)
  : Session unit :=
  let full_table := full_name schema table in
  let tmp_table_name := table ++ tmp_suffix in
  let full_tmp_table := full_name schema tmp_table_name in
  existing_cols <~ fetch_ordered_metadata cursor schema table ;;
  new_ordered_cols <~ lift (insert_new_columns existing_cols new_columns) ;;
  let create := create_sql full_tmp_table new_ordered_cols in
  exprs <~ lift (select_exprs existing_cols new_columns new_ordered_cols) ;;
  let insert := insert_sql full_table full_tmp_table new_ordered_cols exprs in
  execute cursor create [] ;;;
  execute cursor insert [] ;;;
  execute cursor (drop_sql full_table) [] ;;;
  execute cursor (rename_sql full_tmp_table table) [] ;;;
  commit.

(** ** Notions of the specification

    These follow the words of the specification, not the code: they are what
    the code is compared with. *)

(** Names are compared case-insensitively. *)
Definition same_name (a b : string) : Prop := lower a = lower b.

Definition valid_position (r : NewColumn) : Prop :=
  nc_position r = "before" \/ nc_position r = "after".

(** Every anchor names a column that is in the working list when its
    insertion is processed: an existing column or an earlier insertion. *)
Definition anchors_present (L : list Column) (I : list NewColumn) : Prop :=
  forall pre r post,
    I = (pre ++ r :: post)%list ->
    exists c, In c (L ++ map new_meta pre)%list /\ same_name (col_name c) (nc_anchor r).

(** How many columns of a list carry a given name. *)
Definition count_name (n : string) (cols : list Column) : nat :=
  List.length (List.filter (fun c => String.eqb (lower (col_name c)) (lower n)) cols).

Definition lower_names (cols : list Column) : list string :=
  map (fun c => lower (col_name c)) cols.

(** Section 4.3: the anchor is the column of the working list whose name
    matches; where several match, the first one. *)
Definition located_at (anchor : string) (W : list Column) (idx : nat) : Prop :=
  exists c, W !! idx = Some c /\ same_name (col_name c) anchor /\
    forall j c', j < idx -> W !! j = Some c' -> ~ same_name (col_name c') anchor.

(** Section 4.3 as a relation: insertions are taken in order, each placed at
    its anchor's index (BEFORE) or one past it (AFTER) in the working list
    left by the earlier ones. *)
Inductive plan_steps : list Column -> list NewColumn -> list Column -> Prop :=
| plan_done W : plan_steps W [] W
| plan_before W r rest idx out :
    nc_position r = "before" ->
    located_at (nc_anchor r) W idx ->
    plan_steps (firstn idx W ++ new_meta r :: skipn idx W) rest out ->
    plan_steps W (r :: rest) out
| plan_after W r rest idx out :
    nc_position r = "after" ->
    located_at (nc_anchor r) W idx ->
    plan_steps (firstn (S idx) W ++ new_meta r :: skipn (S idx) W) rest out ->
    plan_steps W (r :: rest) out.

(** Section 4.4: the default clause is there whenever a default expression
    is set. *)
Definition renderColumnDef (col : Column) : string :=
  "[" ++ col_name col ++ "] " ++ col_type col
  ++ (if col_is_identity col then " IDENTITY(1,1)" else "")
  ++ (match col_default col with Some expr => " DEFAULT " ++ expr | None => "" end)
  ++ " " ++ (if col_is_nullable col then "NULL" else "NOT NULL").

(** The origin tag of section 3. *)
Inductive Origin : Type := EXISTING | INSERTED.

(** [insert_loop] with every descriptor carrying its origin.  The code keeps
    no such tag: this is the loop of [insert_new_columns] with the tag added
    as ghost information, see [insert_loop_tagged_erase]. *)
Fixpoint insert_loop_tagged (ordered : list (Origin * Column)) (new_columns : list NewColumn)
  : result (list (Origin * Column)) :=
  match new_columns with
  | [] => Ok ordered
  | new_col :: rest =>
      let anchor := nc_anchor new_col in
      let pos := nc_position new_col in
      if negb (str_in pos ["before"; "after"]) then
        Err (ValueError "position must be 'before' or 'after'")
      else
        match anchor_index anchor (map snd ordered) with
        | None => Err (ValueError ("Anchor column '" ++ anchor ++ "' not found"))
        | Some idx =>
            let insert_idx := if String.eqb pos "after" then idx + 1 else idx in
            insert_loop_tagged
              (list_insert_at insert_idx (INSERTED, new_meta new_col) ordered) rest
        end
  end.

Definition tag_existing (existing_cols : list Column) : list (Origin * Column) :=
  map (fun c => (EXISTING, c)) existing_cols.

(** Section 4.5: the SELECT-list expression of a planned column, decided by
    its origin.  [None] is the InternalConsistencyError. *)
Definition renderSelectExpr (insertions : list NewColumn) (d : Origin * Column)
  : option string :=
  let name := col_name (snd d) in
  match fst d with
  | EXISTING => Some ("[" ++ name ++ "]")
  | INSERTED =>
      match find (fun r => String.eqb (lower (nc_name r)) (lower name)) insertions with
      | Some r =>
          match nc_default r with
          | Some expr => Some (expr ++ " AS [" ++ name ++ "]")
          | None => Some ("NULL AS [" ++ name ++ "]")
          end
      | None => None
      end
  end.

(** An empty default expression counts as no default. *)
Definition drop_empty_default (col : Column) : Column :=
  {| col_name := col_name col;
     col_type := col_type col;
     col_is_nullable := col_is_nullable col;
     col_is_identity := col_is_identity col;
     col_default := if truthy (col_default col) then col_default col else None |}.

(** ** Sample tables and requests *)

Definition col_A : Column := mkColumn "A" "INT" true false None.
Definition col_X : Column := mkColumn "X" "INT" false false None.
Definition col_Y : Column := mkColumn "Y" "VARCHAR(10)" true false None.

Definition req (name anchor position : string) : NewColumn :=
  mkNewColumn name "INT" None None None position anchor.

Definition col_Id : Column := mkColumn "Id" "INT" false true None.
Definition col_Name : Column := mkColumn "Name" "VARCHAR(50)" true false None.

Definition req_CreatedAt : NewColumn :=
  mkNewColumn "CreatedAt" "DATETIME2(3)" None None (Some "SYSUTCDATETIME()") "after" "Id".

Definition row_Id : Row := mkRow 1 "Id" "int" 4 10 0 false true None.
Definition row_Name : Row := mkRow 2 "Name" "varchar" 50 0 0 true false None.

(** A server holding the table [dbo.T] with the two rows above, accepting
    every statement. *)
Definition cursor_T : Cursor :=
  mkCursor
    (fun sql params =>
       if String.eqb sql metadata_sql
          && bool_decide (params = ["dbo"; "T"]) then [row_Id; row_Name] else [])
    (fun _ => false).

(** [r'] is [r] with its anchor written in another case. *)
Definition anchor_case_variant (r r' : NewColumn) : Prop :=
  same_name (nc_anchor r) (nc_anchor r') /\
  r' = mkNewColumn (nc_name r) (nc_type r) (nc_nullable r) (nc_identity r)
         (nc_default r) (nc_position r) (nc_anchor r').

(** The four generated statements, in the order the rebuild runs them. *)
Definition rebuild_statements (schema table tmp_suffix : string)
    (planned : list Column) (exprs : list string) : list string :=
  [ create_sql (full_name schema (table ++ tmp_suffix)) planned;
    insert_sql (full_name schema table) (full_name schema (table ++ tmp_suffix))
      planned exprs;
    drop_sql (full_name schema table);
    rename_sql (full_name schema (table ++ tmp_suffix)) table ].

(** A server like [cursor_T] that rejects the statements for which [bad]
    holds. *)
Definition cursor_T_refusing (bad : string -> bool) : Cursor :=
  mkCursor (rows_of cursor_T) bad.

(** ** The planner *)

Section Planner.

Lemma str_in_position (pos : string) :
  str_in pos ["before"; "after"] = true <-> pos = "before" \/ pos = "after".
Proof.
  unfold str_in, existsb.
  rewrite orb_false_r, orb_true_iff, !String.eqb_eq. tauto.
Qed.

Lemma anchor_index_Some (anchor : string) (ordered : list Column) (idx : nat) :
  anchor_index anchor ordered = Some idx <->
  exists c, ordered !! idx = Some c /\ same_name (col_name c) anchor /\
    forall j c', j < idx -> ordered !! j = Some c' -> ~ same_name (col_name c') anchor.
Proof.
  unfold same_name.
  revert idx; induction ordered as [|c rest IH]; intros idx; simpl.
  - split; [discriminate | intros (c & Hc & _); discriminate].
  - destruct (String.eqb_spec (lower (col_name c)) (lower anchor)) as [Heq|Hne].
    + split.
      * intros [= <-]. exists c. repeat split; auto. intros j c' Hj; lia.
      * intros (c0 & Hc0 & Hm & Hfirst). destruct idx as [|idx]; [reflexivity|].
        exfalso. apply (Hfirst 0 c); [lia | reflexivity | exact Heq].
    + destruct (anchor_index anchor rest) as [i|] eqn:Hi; simpl.
      * split.
        -- intros [= <-]. destruct (proj1 (IH i) eq_refl) as (c0 & Hc0 & Hm & Hfirst).
           exists c0. repeat split; auto.
           intros [|j] c' Hj Hl; simpl in Hl.
           ++ injection Hl as <-. exact Hne.
           ++ apply (Hfirst j c'); [lia | exact Hl].
        -- intros (c0 & Hc0 & Hm & Hfirst). destruct idx as [|idx]; simpl in Hc0.
           ++ injection Hc0 as <-. contradiction.
           ++ f_equal. assert (Some i = Some idx) as [= ->]; [|reflexivity].
              apply IH. exists c0. repeat split; auto.
              intros j c' Hj Hl. apply (Hfirst (S j) c'); [lia | exact Hl].
      * split; [discriminate|].
        intros (c0 & Hc0 & Hm & Hfirst). destruct idx as [|idx]; simpl in Hc0.
        -- injection Hc0 as <-. contradiction.
        -- exfalso. assert (None = Some idx) by
             (apply IH; exists c0; repeat split; auto;
              intros j c' Hj Hl; apply (Hfirst (S j) c'); [lia | exact Hl]).
           discriminate.
Qed.

Lemma anchor_index_None (anchor : string) (ordered : list Column) :
  anchor_index anchor ordered = None <->
  forall c, In c ordered -> ~ same_name (col_name c) anchor.
Proof.
  unfold same_name.
  induction ordered as [|c rest IH]; simpl.
  - split; [intros _ c [] | reflexivity].
  - destruct (String.eqb_spec (lower (col_name c)) (lower anchor)) as [Heq|Hne].
    + split; [discriminate|]. intros H. exfalso. apply (H c); auto.
    + destruct (anchor_index anchor rest) as [i|]; simpl.
      * split; [discriminate|]. intros H.
        assert (Some i = @None nat) by (apply IH; intros c' Hc'; apply H; auto).
        discriminate.
      * split; [|reflexivity]. intros _ c' [<-|Hc']; [exact Hne|].
        apply (proj1 IH eq_refl c' Hc').
Qed.

Lemma anchor_index_found (anchor : string) (ordered : list Column) :
  (exists c, In c ordered /\ same_name (col_name c) anchor) ->
  exists idx, anchor_index anchor ordered = Some idx.
Proof.
  intros (c & Hin & Hm).
  destruct (anchor_index anchor ordered) as [idx|] eqn:H; [eauto|].
  exfalso. exact (proj1 (anchor_index_None _ _) H c Hin Hm).
Qed.

Lemma list_insert_at_perm {A} (i : nat) (x : A) (l : list A) :
  Permutation (list_insert_at i x l) (x :: l).
Proof.
  unfold list_insert_at. symmetry.
  rewrite <- (firstn_skipn i l) at 1. apply Permutation_middle.
Qed.

Lemma list_insert_at_length {A} (i : nat) (x : A) (l : list A) :
  List.length (list_insert_at i x l) = S (List.length l).
Proof. apply (Permutation_length (list_insert_at_perm i x l)). Qed.

Lemma insert_loop_cons (ordered : list Column) (r : NewColumn) (rest : list NewColumn) :
  insert_loop ordered (r :: rest) =
  if negb (str_in (nc_position r) ["before"; "after"]) then
    Err (ValueError "position must be 'before' or 'after'")
  else
    match anchor_index (nc_anchor r) ordered with
    | None => Err (ValueError ("Anchor column '" ++ nc_anchor r ++ "' not found"))
    | Some idx =>
        insert_loop
          (list_insert_at (if String.eqb (nc_position r) "after" then idx + 1 else idx)
             (new_meta r) ordered) rest
    end.
Proof. reflexivity. Qed.

(** One turn of the loop, once the position is valid and the anchor found. *)
Lemma insert_loop_step (ordered : list Column) (r : NewColumn)
    (rest : list NewColumn) (idx : nat) :
  valid_position r ->
  anchor_index (nc_anchor r) ordered = Some idx ->
  insert_loop ordered (r :: rest) =
  insert_loop
    (list_insert_at (if String.eqb (nc_position r) "after" then idx + 1 else idx)
       (new_meta r) ordered) rest.
Proof.
  intros Hpos Hidx. rewrite insert_loop_cons.
  rewrite (proj2 (str_in_position _) Hpos). cbn [negb]. rewrite Hidx. reflexivity.
Qed.

Lemma insert_loop_perm (I : list NewColumn) :
  forall (L out : list Column),
    insert_loop L I = Ok out -> Permutation out (L ++ map new_meta I).
Proof.
  induction I as [|r I IH]; intros L out H.
  - injection H as <-. simpl. rewrite app_nil_r. reflexivity.
  - rewrite insert_loop_cons in H.
    destruct (str_in (nc_position r) ["before"; "after"]); cbn [negb] in H; [|discriminate].
    destruct (anchor_index (nc_anchor r) L) as [idx|]; [|discriminate].
    apply IH in H. rewrite H. simpl.
    rewrite list_insert_at_perm. simpl. apply Permutation_middle.
Qed.

Lemma anchors_present_step (L L' : list Column) (r : NewColumn) (I : list NewColumn) :
  Permutation L' (new_meta r :: L) ->
  (anchors_present L (r :: I) <->
   (exists c, In c L /\ same_name (col_name c) (nc_anchor r)) /\ anchors_present L' I).
Proof.
  intros HP. unfold anchors_present. split.
  - intros H. split.
    + destruct (H [] r I eq_refl) as (c & Hc & Hm). simpl in Hc.
      rewrite app_nil_r in Hc. eauto.
    + intros pre r' post ->.
      destruct (H (r :: pre) r' post eq_refl) as (c & Hc & Hm).
      exists c. split; [|exact Hm].
      eapply Permutation_in; [|exact Hc]. simpl.
      rewrite HP. simpl. symmetry. apply Permutation_middle.
  - intros [(c & Hc & Hm) H] pre r' post Heq.
    destruct pre as [|r0 pre]; simpl in Heq; injection Heq as -> ->.
    + exists c. simpl. rewrite app_nil_r. auto.
    + destruct (H pre r' post eq_refl) as (c' & Hc' & Hm').
      exists c'. split; [|exact Hm'].
      eapply Permutation_in; [|exact Hc']. simpl.
      rewrite HP. simpl. apply Permutation_middle.
Qed.

(** The loop succeeds exactly when every position is valid and every anchor
    is found. *)
Lemma insert_loop_ok_iff (I : list NewColumn) :
  forall L : list Column,
    (exists out, insert_loop L I = Ok out) <->
    Forall valid_position I /\ anchors_present L I.
Proof.
  induction I as [|r I IH]; intros L.
  - simpl. split.
    + intros _. split; [constructor|].
      intros pre r post H. destruct pre; discriminate.
    + eauto.
  - split.
    + intros [out H]. rewrite insert_loop_cons in H.
      destruct (str_in (nc_position r) ["before"; "after"]) eqn:Hpos;
        cbn [negb] in H; [|discriminate].
      destruct (anchor_index (nc_anchor r) L) as [idx|] eqn:Hidx; [|discriminate].
      destruct (proj1 (IH _) (ex_intro _ out H)) as [HF HA].
      split.
      * constructor; [apply str_in_position; exact Hpos | exact HF].
      * eapply anchors_present_step; [apply list_insert_at_perm|].
        split; [|exact HA].
        apply anchor_index_Some in Hidx as (c & Hc & Hm & _).
        exists c. split; [|exact Hm].
        apply list_elem_of_In. eapply list_elem_of_lookup_2. exact Hc.
    + intros [HF HA]. inversion HF as [|? ? Hpos HF']; subst.
      set (L' := fun idx => list_insert_at
        (if String.eqb (nc_position r) "after" then idx + 1 else idx) (new_meta r) L).
      assert (exists idx, anchor_index (nc_anchor r) L = Some idx) as [idx Hidx].
      { apply anchor_index_found.
        eapply (proj1 (anchors_present_step L (L' 0) r I (list_insert_at_perm _ _ _))).
        exact HA. }
      rewrite (insert_loop_step _ _ _ _ Hpos Hidx).
      apply IH. split; [exact HF'|].
      eapply (proj1 (anchors_present_step L (L' idx) r I (list_insert_at_perm _ _ _))).
      exact HA.
Qed.

Lemma insert_loop_errors (I : list NewColumn) :
  forall (L : list Column) (e : exn),
    insert_loop L I = Err e -> exists msg, e = ValueError msg.
Proof.
  induction I as [|r I IH]; intros L e H.
  - discriminate.
  - rewrite insert_loop_cons in H.
    destruct (negb _); [injection H as <-; eauto|].
    destruct (anchor_index _ _); [eauto | injection H as <-; eauto].
Qed.

Lemma anchor_index_same_name (a b : string) (l : list Column) :
  same_name a b -> anchor_index a l = anchor_index b l.
Proof.
  unfold same_name. intros H. induction l as [|c l IH]; simpl; [reflexivity|].
  rewrite H, IH. reflexivity.
Qed.

Lemma anchor_index_app (anchor : string) (l1 l2 : list Column) :
  anchor_index anchor (l1 ++ l2) =
  match anchor_index anchor l1 with
  | Some i => Some i
  | None => option_map (Nat.add (List.length l1)) (anchor_index anchor l2)
  end.
Proof.
  induction l1 as [|c l1 IH]; simpl.
  - destruct (anchor_index anchor l2); reflexivity.
  - destruct (String.eqb _ _); [reflexivity|]. rewrite IH.
    destruct (anchor_index anchor l1); [reflexivity|].
    destruct (anchor_index anchor l2); reflexivity.
Qed.

Lemma count_name_perm (n : string) (l l' : list Column) :
  Permutation l l' -> count_name n l = count_name n l'.
Proof.
  unfold count_name. intros HP.
  induction HP as [|x l l' HP IH|x y l|l l' l'' HP1 IH1 HP2 IH2]; simpl.
  - reflexivity.
  - destruct (String.eqb (lower (col_name x)) (lower n)); simpl; congruence.
  - destruct (String.eqb (lower (col_name x)) (lower n)),
      (String.eqb (lower (col_name y)) (lower n)); reflexivity.
  - congruence.
Qed.

Lemma count_name_absent (n : string) (l : list Column) :
  ~ In (lower n) (lower_names l) -> count_name n l = 0.
Proof.
  unfold count_name, lower_names.
  induction l as [|c l IH]; simpl; intros H; [reflexivity|].
  destruct (String.eqb_spec (lower (col_name c)) (lower n)) as [Heq|Hne].
  - exfalso. apply H. left. exact Heq.
  - apply IH. intros Hin. apply H. right. exact Hin.
Qed.

Lemma count_name_NoDup (l : list Column) (c : Column) :
  List.NoDup (lower_names l) -> In c l -> count_name (col_name c) l = 1.
Proof.
  induction l as [|c0 l IH]; intros Hnd Hin; [destruct Hin|].
  change (lower_names (c0 :: l)) with (lower (col_name c0) :: lower_names l) in Hnd.
  apply NoDup_cons_iff in Hnd as [Hnotin Hnd].
  destruct Hin as [<-|Hin].
  - unfold count_name; simpl. rewrite String.eqb_refl; simpl. f_equal.
    apply (count_name_absent _ _ Hnotin).
  - unfold count_name; simpl.
    destruct (String.eqb_spec (lower (col_name c0)) (lower (col_name c))) as [Heq|Hne].
    + exfalso. apply Hnotin. rewrite Heq. unfold lower_names.
      apply (in_map (fun c => lower (col_name c)) l c Hin).
    + apply (IH Hnd Hin).
Qed.

End Planner.

(** C1 fails as stated: the anchor of the single insertion is present, yet
    the returned list holds the name A twice. *)
Lemma insert_new_columns_name_twice :
  anchors_present [col_A] [req "A" "A" "after"] /\
  insert_new_columns [col_A] [req "A" "A" "after"]
    = Ok [col_A; new_meta (req "A" "A" "after")] /\
  count_name "A" [col_A; new_meta (req "A" "A" "after")] = 2.
Proof.
  split; [|split; reflexivity].
  intros pre r post H.
  destruct pre as [|r0 [|r1 pre]]; try discriminate.
  injection H as <- <-. exists col_A. split; [left|]; reflexivity.
Qed.

(** C1 (amended): when every position is "before" or "after", every anchor
    names a column present in the working list at its turn, and the names of
    the existing and the inserted columns are pairwise distinct
    (case-insensitively), [insert_new_columns] returns a list of length
    [len(L) + len(I)], a rearrangement of the existing and the inserted
    descriptors, in which every existing name and every inserted name occurs
    exactly once. *)
Theorem insert_new_columns_each_name_once (L : list Column) (I : list NewColumn) :
  Forall valid_position I ->
  anchors_present L I ->
  List.NoDup (lower_names (L ++ map new_meta I)) ->
  exists out,
    insert_new_columns L I = Ok out /\
    List.length out = List.length L + List.length I /\
    Permutation out (L ++ map new_meta I) /\
    (forall c, In c L -> count_name (col_name c) out = 1) /\
    (forall r, In r I -> count_name (nc_name r) out = 1).
Proof.
  intros Hpos Hanch Hnd.
  destruct (proj2 (insert_loop_ok_iff I L) (conj Hpos Hanch)) as [out Hout].
  pose proof (insert_loop_perm _ _ _ Hout) as HP.
  exists out. split; [exact Hout|]. split; [|split; [exact HP|split]].
  - rewrite (Permutation_length HP), length_app, length_map. reflexivity.
  - intros c Hc. rewrite (count_name_perm _ _ _ HP).
    apply count_name_NoDup; [exact Hnd|]. apply in_or_app. left. exact Hc.
  - intros r Hr. rewrite (count_name_perm _ _ _ HP).
    change (nc_name r) with (col_name (new_meta r)).
    apply count_name_NoDup; [exact Hnd|]. apply in_or_app. right.
    apply in_map. exact Hr.
Qed.

Lemma insert_new_columns_each_name_once_witness :
  exists out,
    insert_new_columns [col_X; col_Y] [req "A" "X" "after"; req "B" "A" "before"] = Ok out /\
    List.length out = 2 + 2 /\
    Permutation out ([col_X; col_Y]
                     ++ map new_meta [req "A" "X" "after"; req "B" "A" "before"]) /\
    (forall c, In c [col_X; col_Y] -> count_name (col_name c) out = 1) /\
    (forall r, In r [req "A" "X" "after"; req "B" "A" "before"] ->
               count_name (nc_name r) out = 1).
Proof.
  apply (insert_new_columns_each_name_once
           [col_X; col_Y] [req "A" "X" "after"; req "B" "A" "before"]).
  - constructor; [right; reflexivity|]. constructor; [left; reflexivity|]. constructor.
  - apply (proj1 (insert_loop_ok_iff _ _)). eexists. reflexivity.
  - repeat (apply List.NoDup_cons; [simpl; intuition discriminate|]). apply List.NoDup_nil.
Defined.

(** C2 fails as stated: with a column named A in front of X, the anchor "A"
    of the second request is that existing column, so B lands behind it and
    not behind the inserted A. *)
Lemma insert_new_columns_anchor_shadowed :
  insert_new_columns [col_A; col_X] [req "A" "X" "after"; req "B" "A" "after"]
  = Ok [col_A; new_meta (req "B" "A" "after"); col_X; new_meta (req "A" "X" "after")] /\
  insert_new_columns [col_A; col_X] [req "A" "X" "after"; req "B" "A" "after"]
  <> Ok [col_A; col_X; new_meta (req "A" "X" "after"); new_meta (req "B" "A" "after")].
Proof. split; [reflexivity | discriminate]. Qed.

(** C2 (amended): insertions are processed one after another on the working
    list.  [insert_new_columns] returns [out] exactly when the sequential
    procedure of section 4.3 (anchor located by case-insensitive match, the
    first one, in the current working list, new descriptor placed at the
    anchor's index for "before" and one past it for "after", later elements
    shifted right) leads from the existing list to [out]; and for
    [A after X, B after A], with X found in the list and no column up to and
    including X carrying A's name, the result has A right after X and B right
    after A. *)
Theorem insert_new_columns_sequential :
  (forall (L : list Column) (I : list NewColumn) (out : list Column),
      insert_new_columns L I = Ok out <-> plan_steps L I out) /\
  (forall (L : list Column) (A B : NewColumn) (i : nat),
      anchor_index (nc_anchor A) L = Some i ->
      anchor_index (nc_name A) (firstn (S i) L) = None ->
      nc_position A = "after" ->
      same_name (nc_anchor B) (nc_name A) ->
      nc_position B = "after" ->
      insert_new_columns L [A; B]
      = Ok (firstn (S i) L ++ new_meta A :: new_meta B :: skipn (S i) L)%list).
Proof.
  split.
  - intros L I out. unfold insert_new_columns. split.
    + revert L. induction I as [|r I IH]; intros L H.
      * injection H as <-. constructor.
      * rewrite insert_loop_cons in H.
        destruct (str_in (nc_position r) ["before"; "after"]) eqn:Hpos;
          cbn [negb] in H; [|discriminate].
        destruct (anchor_index (nc_anchor r) L) as [idx|] eqn:Hidx; [|discriminate].
        apply anchor_index_Some in Hidx.
        apply str_in_position in Hpos as [Hpos|Hpos]; rewrite Hpos in H.
        -- eapply plan_before; eauto.
        -- rewrite Nat.add_1_r in H. eapply plan_after; eauto.
    + intros H. induction H as [W|W r rest idx out Hpos Hloc _ IH|W r rest idx out Hpos Hloc _ IH].
      * reflexivity.
      * apply anchor_index_Some in Hloc.
        rewrite (insert_loop_step _ _ _ idx (or_introl Hpos) Hloc), Hpos. exact IH.
      * apply anchor_index_Some in Hloc.
        rewrite (insert_loop_step _ _ _ idx (or_intror Hpos) Hloc), Hpos.
        rewrite Nat.add_1_r. exact IH.
  - intros L A B i HX Hnew HposA HancB HposB.
    unfold insert_new_columns.
    rewrite (insert_loop_step _ _ _ i (or_intror HposA) HX), HposA.
    cbn [String.eqb Ascii.eqb Bool.eqb]. rewrite Nat.add_1_r.
    assert (Hlen : S i <= List.length L).
    { apply anchor_index_Some in HX as (c & Hc & _).
      apply lookup_lt_Some in Hc. lia. }
    assert (Hidx : anchor_index (nc_anchor B) (list_insert_at (S i) (new_meta A) L)
                   = Some (S i)).
    { unfold list_insert_at.
      rewrite (anchor_index_same_name _ _ _ HancB), anchor_index_app.
      rewrite Hnew.
      simpl. rewrite String.eqb_refl. simpl.
      rewrite length_take_le by exact Hlen. f_equal. lia. }
    rewrite (insert_loop_step _ _ _ (S i) (or_intror HposB) Hidx), HposB.
    cbn [String.eqb Ascii.eqb Bool.eqb]. rewrite Nat.add_1_r.
    cbn [insert_loop]. f_equal. unfold list_insert_at.
    change (firstn (S i) L ++ new_meta A :: skipn (S i) L)%list
      with (firstn (S i) L ++ [new_meta A] ++ skipn (S i) L)%list.
    rewrite app_assoc.
    rewrite take_app_length', drop_app_length'
      by (rewrite length_app, length_take_le by exact Hlen; simpl; lia).
    rewrite <- app_assoc. reflexivity.
Qed.

Lemma insert_new_columns_sequential_witness :
  insert_new_columns [col_X; col_Y] [req "A" "x" "after"; req "B" "a" "after"]
  = Ok [col_X; new_meta (req "A" "x" "after"); new_meta (req "B" "a" "after"); col_Y].
Proof.
  apply (proj2 insert_new_columns_sequential
           [col_X; col_Y] (req "A" "x" "after") (req "B" "a" "after") 0);
    reflexivity.
Defined.

(** C3 fails as stated: the colliding insertion is accepted. *)
Lemma insert_new_columns_accepts_duplicate :
  insert_new_columns [col_A] [req "A" "A" "after"]
    = Ok [col_A; new_meta (req "A" "A" "after")] /\
  forall e, insert_new_columns [col_A] [req "A" "A" "after"] <> Err e.
Proof. split; [reflexivity | intros e; discriminate]. Qed.

(** C3 (amended): [insert_new_columns] makes no check on the inserted name.
    It returns a list exactly when every position is "before" or "after" and
    every anchor is in the working list at its turn, whether or not an
    inserted name collides with a name already there; and whatever it raises
    is a ValueError (for the position or for the anchor). *)
Theorem insert_new_columns_failures (L : list Column) (I : list NewColumn) :
  ((exists out, insert_new_columns L I = Ok out) <->
   Forall valid_position I /\ anchors_present L I) /\
  (forall e, insert_new_columns L I = Err e -> exists msg, e = ValueError msg).
Proof.
  split.
  - apply insert_loop_ok_iff.
  - apply insert_loop_errors.
Qed.

(** ** The catalog reader *)

Lemma cols_of_rows_map (rows : list Row) : cols_of_rows rows = map column_of_row rows.
Proof.
  unfold cols_of_rows.
  assert (H : forall acc, fold_left (fun cols row => cols ++ [column_of_row row])%list rows acc
                          = (acc ++ map column_of_row rows)%list).
  { induction rows as [|row rows IH]; intros acc; simpl.
    - rewrite app_nil_r. reflexivity.
    - rewrite IH, <- app_assoc. reflexivity. }
  apply (H []).
Qed.

(** C4 fails as stated: for a table the catalog knows nothing of, the reader
    returns the empty list. *)
Lemma fetch_ordered_metadata_missing_table :
  fetch_ordered_metadata cursor_T "dbo" "Missing" []
  = ([Execute metadata_sql ["dbo"; "Missing"]], Ok []).
Proof. vm_compute. reflexivity. Qed.

(** C4 (amended): when the catalog query yields zero rows,
    [fetch_ordered_metadata] returns the empty list; no error is raised. *)
Theorem fetch_ordered_metadata_no_rows (cursor : Cursor) (schema table : string)
    (tr : list event) :
  refuses cursor metadata_sql = false ->
  rows_of cursor metadata_sql [schema; table] = [] ->
  fetch_ordered_metadata cursor schema table tr
  = ((tr ++ [Execute metadata_sql [schema; table]])%list, Ok []).
Proof.
  intros Hacc Hrows.
  unfold fetch_ordered_metadata, sbind, execute, ret.
  rewrite Hacc, Hrows. reflexivity.
Qed.

Lemma fetch_ordered_metadata_no_rows_witness :
  fetch_ordered_metadata cursor_T "dbo" "Missing" [Commit]
  = ([Commit; Execute metadata_sql ["dbo"; "Missing"]], Ok []).
Proof.
  apply (fetch_ordered_metadata_no_rows cursor_T "dbo" "Missing" [Commit]);
    vm_compute; reflexivity.
Defined.

Lemma str_in_In (x : string) (xs : list string) : str_in x xs = true <-> In x xs.
Proof.
  unfold str_in. rewrite existsb_exists. split.
  - intros (y & Hy & Heq). apply String.eqb_eq in Heq. subst. exact Hy.
  - intros H. exists x. split; [exact H | apply String.eqb_refl].
Qed.

Lemma str_in_not_In (x : string) (xs : list string) : ~ In x xs -> str_in x xs = false.
Proof.
  intros H. destruct (str_in x xs) eqn:E; [|reflexivity].
  exfalso. apply H, str_in_In, E.
Qed.

(** C5: the type string of a catalog row, by family of the upper-cased type
    name [T]: character and binary types give [T(MAX)] for the sentinel -1
    and [T(length)] otherwise, the length being the byte length halved
    (truncating) for NCHAR and NVARCHAR, so that an even byte length [2 * k]
    gives [T(k)]; DECIMAL and NUMERIC give [T(precision,scale)]; DATETIME2,
    TIME and DATETIMEOFFSET give [T(scale)]; any other name gives [T] alone.
    NVARCHAR with byte length 100 is NVARCHAR(50), VARCHAR with -1 is
    VARCHAR(MAX), INT is INT. *)
Theorem type_str_by_family (row : Row) :
  let T := upper (data_type row) in
  (In T ["CHAR"; "NCHAR"; "VARCHAR"; "NVARCHAR"; "BINARY"; "VARBINARY"] ->
   max_length row = (-1)%Z -> type_str row = T ++ "(MAX)") /\
  (In T ["NCHAR"; "NVARCHAR"] -> max_length row <> (-1)%Z ->
   type_str row = T ++ "(" ++ str_of_Z (Z.quot (max_length row) 2) ++ ")") /\
  (In T ["NCHAR"; "NVARCHAR"] -> forall k, max_length row = (2 * k)%Z ->
   type_str row = T ++ "(" ++ str_of_Z k ++ ")") /\
  (In T ["CHAR"; "VARCHAR"; "BINARY"; "VARBINARY"] -> max_length row <> (-1)%Z ->
   type_str row = T ++ "(" ++ str_of_Z (max_length row) ++ ")") /\
  (In T ["DECIMAL"; "NUMERIC"] ->
   type_str row
   = T ++ "(" ++ str_of_Z (precision row) ++ "," ++ str_of_Z (scale row) ++ ")") /\
  (In T ["DATETIME2"; "TIME"; "DATETIMEOFFSET"] ->
   type_str row = T ++ "(" ++ str_of_Z (scale row) ++ ")") /\
  (~ In T ["CHAR"; "NCHAR"; "VARCHAR"; "NVARCHAR"; "BINARY"; "VARBINARY";
           "DECIMAL"; "NUMERIC"; "DATETIME2"; "TIME"; "DATETIMEOFFSET"] ->
   type_str row = T) /\
  (forall id name m p s n i d,
      type_str (mkRow id name "NVARCHAR" 100 p s n i d) = "NVARCHAR(50)" /\
      type_str (mkRow id name "VARCHAR" 50 p s n i d) = "VARCHAR(50)" /\
      type_str (mkRow id name "VARCHAR" (-1) p s n i d) = "VARCHAR(MAX)" /\
      type_str (mkRow id name "DECIMAL" m 18 2 n i d) = "DECIMAL(18,2)" /\
      type_str (mkRow id name "INT" m p s n i d) = "INT").
Proof.
  intros T. unfold type_str. change (upper (data_type row)) with T. clearbody T.
  repeat split.
  - intros HT Hmax. rewrite (proj2 (str_in_In _ _) HT), Hmax. reflexivity.
  - intros HT Hmax.
    destruct (Z.eqb_spec (max_length row) (-1)) as [|_]; [contradiction|].
    destruct HT as [<-|[<-|[]]]; reflexivity.
  - intros HT k Hk.
    destruct (Z.eqb_spec (max_length row) (-1)) as [|_]; [lia|].
    rewrite Hk, (Z.mul_comm 2 k), Z.quot_mul by lia.
    destruct HT as [<-|[<-|[]]]; reflexivity.
  - intros HT Hmax.
    destruct (Z.eqb_spec (max_length row) (-1)) as [|_]; [contradiction|].
    destruct HT as [<-|[<-|[<-|[<-|[]]]]]; reflexivity.
  - intros HT. destruct HT as [<-|[<-|[]]]; reflexivity.
  - intros HT. destruct HT as [<-|[<-|[<-|[]]]]; reflexivity.
  - intros HT.
    rewrite !str_in_not_In; [reflexivity| | |];
      intros H; apply HT; simpl in *; tauto.
Qed.

Lemma type_str_by_family_witness :
  type_str (mkRow 3 "Title" "nvarchar" 100 0 0 true false None) = "NVARCHAR(50)".
Proof.
  apply (proj1 (proj2 (proj2 (type_str_by_family
           (mkRow 3 "Title" "nvarchar" 100 0 0 true false None))))
         (or_intror (or_introl eq_refl)) 50%Z).
  reflexivity.
Defined.

(** ** Column definitions *)

(** C8 fails as stated: a default expression set to the empty string gives
    no DEFAULT clause. *)
Lemma build_col_def_empty_default :
  col_default (mkColumn "c" "INT" true false (Some "")) <> None /\
  build_col_def (mkColumn "c" "INT" true false (Some "")) = "[c] INT NULL" /\
  renderColumnDef (mkColumn "c" "INT" true false (Some "")) = "[c] INT DEFAULT  NULL".
Proof. split; [discriminate | split; reflexivity]. Qed.

(** C8 (amended): [build_col_def] returns
    [[name] type[ IDENTITY(1,1)][ DEFAULT expr] NULL|NOT NULL], the identity
    clause present iff [is_identity], the default clause present iff the
    default expression is set and is not the empty string, the last keyword
    NULL when [is_nullable] and NOT NULL otherwise. *)
Theorem build_col_def_render (col : Column) :
  build_col_def col = renderColumnDef (drop_empty_default col) /\
  (truthy (col_default col) = true ->
   exists expr, col_default col = Some expr /\ build_col_def col = renderColumnDef col) /\
  (truthy (col_default col) = false ->
   build_col_def col =
   "[" ++ col_name col ++ "] " ++ col_type col
   ++ (if col_is_identity col then " IDENTITY(1,1)" else "")
   ++ " " ++ (if col_is_nullable col then "NULL" else "NOT NULL")).
Proof.
  unfold build_col_def, renderColumnDef, drop_empty_default. cbn [col_name col_type
    col_is_nullable col_is_identity col_default].
  destruct (col_default col) as [d|]; [destruct (truthy (Some d)) eqn:Ht|];
    repeat split; try discriminate; eauto.
Qed.

Lemma build_col_def_render_witness :
  build_col_def (new_meta req_CreatedAt)
  = "[CreatedAt] DATETIME2(3) DEFAULT SYSUTCDATETIME() NULL".
Proof.
  destruct (proj1 (proj2 (build_col_def_render (new_meta req_CreatedAt))) eq_refl)
    as (expr & _ & ->).
  reflexivity.
Defined.

(** ** The copy batch *)

Lemma has_identity_iff (cols : list Column) :
  has_identity cols = true <-> exists c, In c cols /\ col_is_identity c = true.
Proof. unfold has_identity. apply existsb_exists. Qed.

Lemma identity_insert_on_not_insert (full_table full_tmp_table : string)
    (cols exprs : list string) :
  identity_insert_on full_tmp_table <> insert_select full_table full_tmp_table cols exprs.
Proof. unfold identity_insert_on, insert_select. simpl. discriminate. Qed.

Lemma identity_insert_off_not_insert (full_table full_tmp_table : string)
    (cols exprs : list string) :
  identity_insert_off full_tmp_table <> insert_select full_table full_tmp_table cols exprs.
Proof. unfold identity_insert_off, insert_select. simpl. discriminate. Qed.

Lemma append_inj_l (p a b : string) : p ++ a = p ++ b -> a = b.
Proof. induction p as [|ch p IH]; simpl; intros H; [exact H|]. injection H as H. auto. Qed.

Lemma identity_insert_on_not_off (full_tmp_table : string) :
  identity_insert_on full_tmp_table <> identity_insert_off full_tmp_table.
Proof.
  unfold identity_insert_on, identity_insert_off. intros H.
  apply (append_inj_l "SET IDENTITY_INSERT ") in H.
  apply append_inj_l in H. discriminate.
Qed.

(** C7: the batch is [SET IDENTITY_INSERT target ON], the INSERT, then
    [SET IDENTITY_INSERT target OFF] when some planned column is an identity
    column, and the INSERT alone otherwise; so each of the two SET statements
    is in the batch iff some planned column is an identity column. *)
Theorem insert_batch_identity_bracketing (full_table full_tmp_table : string)
    (cols : list Column) (exprs : list string) :
  let parts := insert_batch_parts full_table full_tmp_table cols exprs in
  let insert := insert_select full_table full_tmp_table (insert_cols cols) exprs in
  let some_identity := exists c, In c cols /\ col_is_identity c = true in
  (some_identity ->
   parts = [identity_insert_on full_tmp_table; insert; identity_insert_off full_tmp_table]) /\
  (~ some_identity -> parts = [insert]) /\
  (In (identity_insert_on full_tmp_table) parts <-> some_identity) /\
  (In (identity_insert_off full_tmp_table) parts <-> some_identity) /\
  insert_sql full_table full_tmp_table cols exprs = join nl parts.
Proof.
  intros parts insert some_identity. subst parts insert some_identity.
  unfold insert_sql, insert_batch_parts.
  pose proof (has_identity_iff cols) as Hiff.
  pose proof (identity_insert_on_not_insert full_table full_tmp_table
                (insert_cols cols) exprs) as Hon.
  pose proof (identity_insert_off_not_insert full_table full_tmp_table
                (insert_cols cols) exprs) as Hoff.
  pose proof (identity_insert_on_not_off full_tmp_table) as Honoff.
  destruct (has_identity cols); simpl.
  - assert (Hsome : exists c, In c cols /\ col_is_identity c = true) by (apply Hiff; reflexivity).
    repeat split; simpl; auto; tauto.
  - assert (Hnone : ~ exists c, In c cols /\ col_is_identity c = true).
    { intros H. apply Hiff in H. discriminate. }
    repeat split; try tauto.
    + intros [H|[]]. exfalso. apply Hon. symmetry. exact H.
    + intros [H|[]]. exfalso. apply Hoff. symmetry. exact H.
Qed.

Lemma insert_batch_identity_bracketing_witness :
  insert_batch_parts "[dbo].[T]" "[dbo].[T_TmpReorder]"
    [col_Id; new_meta req_CreatedAt; col_Name]
    ["[Id]"; "SYSUTCDATETIME() AS [CreatedAt]"; "[Name]"]
  = [ "SET IDENTITY_INSERT [dbo].[T_TmpReorder] ON;";
      insert_select "[dbo].[T]" "[dbo].[T_TmpReorder]"
        ["[Id]"; "[CreatedAt]"; "[Name]"]
        ["[Id]"; "SYSUTCDATETIME() AS [CreatedAt]"; "[Name]"];
      "SET IDENTITY_INSERT [dbo].[T_TmpReorder] OFF;" ].
Proof.
  apply (proj1 (insert_batch_identity_bracketing "[dbo].[T]" "[dbo].[T_TmpReorder]"
           [col_Id; new_meta req_CreatedAt; col_Name]
           ["[Id]"; "SYSUTCDATETIME() AS [CreatedAt]"; "[Name]"])).
  exists col_Id. split; [left|]; reflexivity.
Defined.

(** ** The rebuild *)

(** C9: when planning raises, the rebuild raises the same error and the only
    statement it has run is the catalog query of the metadata read: no
    CREATE, INSERT, DROP or rename is executed and nothing is committed. *)
Theorem rebuild_planning_error_runs_nothing (cursor : Cursor) (schema table : string)
    (new_columns : list NewColumn) (tmp_suffix : string) (tr tr' : list event)
    (existing_cols : list Column) (e : exn) :
  fetch_ordered_metadata cursor schema table tr = (tr', Ok existing_cols) ->
  insert_new_columns existing_cols new_columns = Err e ->
  rebuild_with_inferred_and_inserted_columns cursor schema table new_columns tmp_suffix tr
  = (tr', Err e) /\
  tr' = (tr ++ [Execute metadata_sql [schema; table]])%list.
Proof.
  intros Hfetch Hplan. split.
  - unfold rebuild_with_inferred_and_inserted_columns.
    unfold sbind at 1. rewrite Hfetch.
    unfold sbind at 1. unfold lift at 1. rewrite Hplan. reflexivity.
  - unfold fetch_ordered_metadata, sbind, execute, ret in Hfetch.
    destruct (refuses cursor metadata_sql); [discriminate|].
    injection Hfetch as <- _. reflexivity.
Qed.

Lemma rebuild_planning_error_runs_nothing_witness :
  rebuild_with_inferred_and_inserted_columns cursor_T "dbo" "T"
    [req "New" "Missing" "after"] "_TmpReorder" []
  = ([Execute metadata_sql ["dbo"; "T"]],
     Err (ValueError "Anchor column 'Missing' not found"))
  /\ [Execute metadata_sql ["dbo"; "T"]]
     = ([] ++ [Execute metadata_sql ["dbo"; "T"]])%list.
Proof.
  apply (rebuild_planning_error_runs_nothing cursor_T "dbo" "T"
           [req "New" "Missing" "after"] "_TmpReorder" []
           [Execute metadata_sql ["dbo"; "T"]]
           [column_of_row row_Id; column_of_row row_Name]);
    vm_compute; reflexivity.
Defined.

(** ** The planner on the store *)

Lemma heap_insert_loop_cons (h : Heap.store) (ordered : Heap.loc) (r : NewColumn)
    (rest : list NewColumn) :
  Heap.insert_loop h ordered (r :: rest) =
  if negb (str_in (nc_position r) ["before"; "after"]) then
    Some (h, Err (ValueError "position must be 'before' or 'after'"))
  else
    match h !! ordered with
    | None => None
    | Some cols =>
        match anchor_index (nc_anchor r) cols with
        | None =>
            Some (h, Err (ValueError ("Anchor column '" ++ nc_anchor r ++ "' not found")))
        | Some idx =>
            Heap.insert_loop
              (<[ordered :=
                   list_insert_at (if String.eqb (nc_position r) "after" then idx + 1 else idx)
                     (new_meta r) cols]> h)
              ordered rest
        end
    end.
Proof. reflexivity. Qed.

(** The loop on the store writes only the working list, and leaves in it
    what the loop on values computes. *)
Lemma heap_insert_loop_spec (I : list NewColumn) :
  forall (h : Heap.store) (ordered : Heap.loc) (cols : list Column),
    h !! ordered = Some cols ->
    exists h' r,
      Heap.insert_loop h ordered I = Some (h', r) /\
      (forall l, l <> ordered -> h' !! l = h !! l) /\
      match insert_loop cols I with
      | Ok out => r = Ok tt /\ h' !! ordered = Some out
      | Err e => r = Err e
      end.
Proof.
  induction I as [|new_col I IH]; intros h ordered cols Hcols.
  - exists h, (Ok tt). simpl. auto.
  - rewrite heap_insert_loop_cons, insert_loop_cons.
    destruct (negb (str_in (nc_position new_col) ["before"; "after"])).
    + exists h, (Err (ValueError "position must be 'before' or 'after'")). auto.
    + rewrite Hcols.
      destruct (anchor_index (nc_anchor new_col) cols) as [idx|].
      * set (cols' := list_insert_at _ (new_meta new_col) cols).
        destruct (IH (<[ordered := cols']> h) ordered cols') as (h' & r & Hrun & Hframe & Hres).
        { apply lookup_insert_eq. }
        exists h', r. split; [exact Hrun|]. split; [|exact Hres].
        intros l Hl. rewrite (Hframe l Hl). apply lookup_insert_ne. congruence.
      * eexists h, _. auto.
Qed.

(** C10: [insert_new_columns] leaves the list object passed as
    [existing_cols] as it was, whether it returns or raises: the call always
    completes, every list object of the store before the call (so
    [existing_cols] too) has the same contents after it, the list returned is
    a new object, and result and contents are those of the function on
    values. *)
Theorem insert_new_columns_keeps_existing (h : Heap.store) (existing_cols : Heap.loc)
    (cols : list Column) (new_columns : list NewColumn) :
  h !! existing_cols = Some cols ->
  exists h' r,
    Heap.insert_new_columns h existing_cols new_columns = Some (h', r) /\
    h' !! existing_cols = Some cols /\
    (forall l, is_Some (h !! l) -> h' !! l = h !! l) /\
    match r with
    | Ok p =>
        h !! p = None /\
        exists out, h' !! p = Some out /\ insert_new_columns cols new_columns = Ok out
    | Err e => insert_new_columns cols new_columns = Err e
    end.
Proof.
  intros Hcols. unfold Heap.insert_new_columns, Heap.list_copy. rewrite Hcols.
  set (p := fresh (dom h)).
  assert (Hp : h !! p = None).
  { apply not_elem_of_dom. apply is_fresh. }
  clearbody p.
  destruct (heap_insert_loop_spec new_columns (<[p := cols]> h) p cols)
    as (h' & r & Hrun & Hframe & Hres).
  { apply lookup_insert_eq. }
  rewrite Hrun.
  assert (Hold : forall l, is_Some (h !! l) -> h' !! l = h !! l).
  { intros l [x Hl].
    assert (l <> p) by (intros Heq; rewrite Heq, Hp in Hl; discriminate).
    rewrite (Hframe l) by assumption. apply lookup_insert_ne. congruence. }
  unfold insert_new_columns.
  destruct (insert_loop cols new_columns) as [out|e].
  - destruct Hres as [-> Hout]. exists h', (Ok p).
    split; [reflexivity|]. split; [rewrite Hold by eauto; exact Hcols|].
    split; [exact Hold|]. split; [exact Hp|]. exists out. auto.
  - subst r. exists h', (Err e).
    split; [reflexivity|]. split; [rewrite Hold by eauto; exact Hcols|].
    split; [exact Hold|]. reflexivity.
Qed.

Lemma insert_new_columns_keeps_existing_witness :
  exists h' r,
    Heap.insert_new_columns {[ 1%positive := [col_X; col_Y] ]} 1%positive
      [req "A" "X" "before"] = Some (h', r) /\
    h' !! 1%positive = Some [col_X; col_Y] /\
    (forall l, is_Some (({[ 1%positive := [col_X; col_Y] ]} : Heap.store) !! l) ->
               h' !! l = ({[ 1%positive := [col_X; col_Y] ]} : Heap.store) !! l) /\
    match r with
    | Ok p =>
        ({[ 1%positive := [col_X; col_Y] ]} : Heap.store) !! p = None /\
        exists out, h' !! p = Some out /\
                    insert_new_columns [col_X; col_Y] [req "A" "X" "before"] = Ok out
    | Err e => insert_new_columns [col_X; col_Y] [req "A" "X" "before"] = Err e
    end.
Proof.
  apply (insert_new_columns_keeps_existing
           {[ 1%positive := [col_X; col_Y] ]} 1%positive [col_X; col_Y]
           [req "A" "X" "before"]).
  reflexivity.
Defined.

(** ** The SELECT list *)

Lemma list_insert_at_map {A B} (f : A -> B) (i : nat) (x : A) (l : list A) :
  map f (list_insert_at i x l) = list_insert_at i (f x) (map f l).
Proof.
  unfold list_insert_at. rewrite map_app, firstn_map, skipn_map. reflexivity.
Qed.

Lemma in_list_insert_at {A} (i : nat) (x d : A) (l : list A) :
  In d (list_insert_at i x l) -> d = x \/ In d l.
Proof.
  intros H. apply (Permutation_in _ (list_insert_at_perm i x l)) in H.
  destruct H as [<-|H]; auto.
Qed.

(** Forgetting the tags gives back the loop of the code. *)
Lemma insert_loop_tagged_erase (I : list NewColumn) :
  forall W : list (Origin * Column),
    insert_loop (map snd W) I =
    match insert_loop_tagged W I with
    | Ok out => Ok (map snd out)
    | Err e => Err e
    end.
Proof.
  induction I as [|r I IH]; intros W; [reflexivity|].
  rewrite insert_loop_cons. cbn [insert_loop_tagged].
  destruct (negb (str_in (nc_position r) ["before"; "after"])); [reflexivity|].
  destruct (anchor_index (nc_anchor r) (map snd W)) as [idx|]; [|reflexivity].
  rewrite <- IH, list_insert_at_map. reflexivity.
Qed.

(** A tagged descriptor of the result was in the starting list or is the
    descriptor of one of the requests, tagged INSERTED. *)
Lemma insert_loop_tagged_origin (I : list NewColumn) :
  forall (W out : list (Origin * Column)),
    insert_loop_tagged W I = Ok out ->
    forall d, In d out ->
      In d W \/ exists r, In r I /\ d = (INSERTED, new_meta r).
Proof.
  induction I as [|r I IH]; intros W out H d Hd.
  - injection H as <-. auto.
  - cbn [insert_loop_tagged] in H.
    destruct (negb (str_in (nc_position r) ["before"; "after"])); [discriminate|].
    destruct (anchor_index (nc_anchor r) (map snd W)) as [idx|]; [|discriminate].
    destruct (IH _ _ H d Hd) as [Hin|(r' & Hr' & ->)].
    + apply in_list_insert_at in Hin as [->|Hin]; [right|left; exact Hin].
      exists r. split; [left|]; reflexivity.
    + right. exists r'. split; [right; exact Hr' | reflexivity].
Qed.

Lemma elem_of_existing_names (existing_cols : list Column) (n : string) :
  n ∈ existing_names existing_cols <-> In n (lower_names existing_cols).
Proof.
  unfold existing_names, lower_names.
  rewrite elem_of_list_to_set, list_elem_of_In. reflexivity.
Qed.

Lemma select_expr_existing (existing_cols : list Column) (new_columns : list NewColumn)
    (c : Column) :
  In (lower (col_name c)) (lower_names existing_cols) ->
  select_expr existing_cols new_columns c = Ok ("[" ++ col_name c ++ "]").
Proof.
  intros H. unfold select_expr.
  rewrite bool_decide_eq_true_2 by (apply elem_of_existing_names; exact H).
  reflexivity.
Qed.

Lemma select_expr_new (existing_cols : list Column) (new_columns : list NewColumn)
    (c : Column) :
  ~ In (lower (col_name c)) (lower_names existing_cols) ->
  select_expr existing_cols new_columns c =
  match find (fun n => String.eqb (lower (nc_name n)) (lower (col_name c))) new_columns with
  | None => Err StopIteration
  | Some spec =>
      match nc_default spec with
      | Some default => Ok (default ++ " AS [" ++ col_name c ++ "]")
      | None => Ok ("NULL AS [" ++ col_name c ++ "]")
      end
  end.
Proof.
  intros H. unfold select_expr.
  rewrite bool_decide_eq_false_2
    by (intros Hin; apply H; apply elem_of_existing_names; exact Hin).
  reflexivity.
Qed.

Lemma mapM_Forall2 {A B C} (f : B -> result C) (g : A -> B) (P : A -> C -> Prop)
    (l : list A) :
  (forall x, In x l -> exists e, f (g x) = Ok e /\ P x e) ->
  exists es, mapM f (map g l) = Ok es /\ Forall2 P l es.
Proof.
  induction l as [|x l IH]; intros H.
  - exists []. split; [reflexivity | constructor].
  - destruct (H x (or_introl eq_refl)) as (e & He & HP).
    destruct IH as (es & Hes & HF); [intros y Hy; apply H; right; exact Hy|].
    exists (e :: es). split; [|constructor; assumption].
    simpl. rewrite He. simpl. rewrite Hes. reflexivity.
Qed.

(** C6 fails as stated: an inserted column whose name collides with an
    existing one is selected by its bracketed name, not by its default. *)
Lemma select_exprs_collision :
  insert_loop_tagged (tag_existing [col_A])
    [mkNewColumn "a" "INT" None None (Some "0") "after" "A"]
  = Ok [(EXISTING, col_A);
        (INSERTED, new_meta (mkNewColumn "a" "INT" None None (Some "0") "after" "A"))] /\
  select_exprs [col_A] [mkNewColumn "a" "INT" None None (Some "0") "after" "A"]
    [col_A; new_meta (mkNewColumn "a" "INT" None None (Some "0") "after" "A")]
  = Ok ["[A]"; "[a]"] /\
  renderSelectExpr [mkNewColumn "a" "INT" None None (Some "0") "after" "A"]
    (INSERTED, new_meta (mkNewColumn "a" "INT" None None (Some "0") "after" "A"))
  = Some "0 AS [a]".
Proof. split; [|split]; vm_compute; reflexivity. Qed.

(** C6 (amended): for a planned column list in which no inserted name
    collides (case-insensitively) with an existing name, the SELECT-list
    expression of each planned column is the bracketed column name if the
    column is of EXISTING origin, and otherwise the default expression of the
    matching request (looked up by case-insensitive name) aliased to the
    column name when there is one, else NULL aliased to the column name; the
    lookup never fails. *)
Theorem select_exprs_by_origin (existing_cols : list Column) (new_columns : list NewColumn)
    (planned : list (Origin * Column)) :
  insert_loop_tagged (tag_existing existing_cols) new_columns = Ok planned ->
  (forall c r, In c existing_cols -> In r new_columns ->
               ~ same_name (col_name c) (nc_name r)) ->
  insert_new_columns existing_cols new_columns = Ok (map snd planned) /\
  exists exprs,
    select_exprs existing_cols new_columns (map snd planned) = Ok exprs /\
    Forall2 (fun d e => renderSelectExpr new_columns d = Some e) planned exprs.
Proof.
  intros Hplan Hfresh. split.
  - unfold insert_new_columns.
    replace existing_cols with (map snd (tag_existing existing_cols))
      by (unfold tag_existing; rewrite map_map; apply map_id).
    rewrite insert_loop_tagged_erase, Hplan. reflexivity.
  - apply mapM_Forall2. intros [o c] Hd.
    destruct (insert_loop_tagged_origin _ _ _ Hplan _ Hd) as [Hin|(r & Hr & Heq)].
    + unfold tag_existing in Hin. apply in_map_iff in Hin as (c0 & [= <- <-] & Hc0).
      exists ("[" ++ col_name c0 ++ "]"). split; [|reflexivity].
      apply select_expr_existing. unfold lower_names.
      apply (in_map (fun c => lower (col_name c)) _ _ Hc0).
    + injection Heq as -> ->. cbn [snd fst].
      rewrite select_expr_new.
      2:{ unfold lower_names. intros Hin.
          apply in_map_iff in Hin as (c0 & Hname & Hc0).
          exact (Hfresh c0 r Hc0 Hr Hname). }
      unfold renderSelectExpr. cbn [snd fst].
      destruct (find (fun n => String.eqb (lower (nc_name n)) (lower (col_name (new_meta r))))
                  new_columns) as [spec|] eqn:Hfind.
      * destruct (nc_default spec); eauto.
      * exfalso. pose proof (find_none _ _ Hfind r Hr) as Hno.
        cbn [new_meta col_name] in Hno. rewrite String.eqb_refl in Hno. discriminate.
Qed.

Lemma select_exprs_by_origin_witness :
  insert_new_columns [col_Id; col_Name] [req_CreatedAt]
  = Ok (map snd [(EXISTING, col_Id); (INSERTED, new_meta req_CreatedAt);
                 (EXISTING, col_Name)]) /\
  exists exprs,
    select_exprs [col_Id; col_Name] [req_CreatedAt]
      (map snd [(EXISTING, col_Id); (INSERTED, new_meta req_CreatedAt);
                (EXISTING, col_Name)]) = Ok exprs /\
    Forall2 (fun d e => renderSelectExpr [req_CreatedAt] d = Some e)
      [(EXISTING, col_Id); (INSERTED, new_meta req_CreatedAt); (EXISTING, col_Name)]
      exprs.
Proof.
  apply (select_exprs_by_origin [col_Id; col_Name] [req_CreatedAt]).
  - reflexivity.
  - intros c r [<-|[<-|[]]] [<-|[]]; unfold same_name; simpl; discriminate.
Defined.

(** ** The end-to-end scenario

    Table [dbo.T] with [Id] (identity, int) and [Name] (varchar(50));
    [CreatedAt] inserted after [Id] with default [SYSUTCDATETIME()]. *)

Example str_of_Z_samples :
  str_of_Z 0 = "0" /\ str_of_Z 50 = "50" /\ str_of_Z (-1) = "-1" /\ str_of_Z 8000 = "8000".
Proof. repeat split; reflexivity. Qed.

Example scenario_metadata :
  fetch_ordered_metadata cursor_T "dbo" "T" []
  = ([Execute metadata_sql ["dbo"; "T"]], Ok [col_Id; col_Name]).
Proof. vm_compute. reflexivity. Qed.

Example scenario_plan :
  insert_new_columns [col_Id; col_Name] [req_CreatedAt]
  = Ok [col_Id; new_meta req_CreatedAt; col_Name].
Proof. reflexivity. Qed.

Example scenario_select_list :
  select_exprs [col_Id; col_Name] [req_CreatedAt]
    [col_Id; new_meta req_CreatedAt; col_Name]
  = Ok ["[Id]"; "SYSUTCDATETIME() AS [CreatedAt]"; "[Name]"].
Proof. vm_compute. reflexivity. Qed.

Example scenario_rebuild :
  rebuild_with_inferred_and_inserted_columns cursor_T "dbo" "T" [req_CreatedAt]
    "_TmpReorder" []
  = ([ Execute metadata_sql ["dbo"; "T"];
       Execute
         (join nl
            [ "CREATE TABLE [dbo].[T_TmpReorder] (";
              "    [Id] INT IDENTITY(1,1) NOT NULL,";
              "    [CreatedAt] DATETIME2(3) DEFAULT SYSUTCDATETIME() NULL,";
              "    [Name] VARCHAR(50) NULL";
              ");" ]) [];
       Execute
         (join nl
            [ "SET IDENTITY_INSERT [dbo].[T_TmpReorder] ON;";
              "INSERT INTO [dbo].[T_TmpReorder] ([Id], [CreatedAt], [Name])";
              "SELECT [Id], SYSUTCDATETIME() AS [CreatedAt], [Name]";
              "FROM [dbo].[T] WITH (HOLDLOCK TABLOCKX);";
              "SET IDENTITY_INSERT [dbo].[T_TmpReorder] OFF;" ]) [];
       Execute "DROP TABLE [dbo].[T];" [];
       Execute "EXEC sp_rename N'[dbo].[T_TmpReorder]', N'T', 'OBJECT';" [];
       Commit ],
     Ok tt).
Proof. vm_compute. reflexivity. Qed.

(** ** Further properties of the planner *)

(** X1: planning a concatenated request list is planning the first part and
    then the second part on its result; an error in the first part is the
    error of the whole. *)
Theorem insert_new_columns_app (L : list Column) (I1 I2 : list NewColumn) :
  insert_new_columns L (I1 ++ I2) =
  bind (insert_new_columns L I1) (fun W => insert_new_columns W I2).
Proof.
  unfold insert_new_columns. revert L.
  induction I1 as [|r I1 IH]; intros L; [reflexivity|].
  rewrite <- app_comm_cons, !insert_loop_cons.
  destruct (negb (str_in (nc_position r) ["before"; "after"])); [reflexivity|].
  destruct (anchor_index (nc_anchor r) L); [apply IH | reflexivity].
Qed.

Lemma sublist_list_insert_at {A} (i : nat) (x : A) (l : list A) :
  l `sublist_of` list_insert_at i x l.
Proof.
  unfold list_insert_at. rewrite <- (firstn_skipn i l) at 1.
  apply sublist_app; [reflexivity|]. apply sublist_cons. reflexivity.
Qed.

(** X2: the existing columns keep their relative order: the list passed in
    is a subsequence of the list returned, and every requested column is in
    the list returned. *)
Theorem insert_new_columns_keeps_order (L : list Column) (I : list NewColumn)
    (out : list Column) :
  insert_new_columns L I = Ok out ->
  L `sublist_of` out /\ forall r, In r I -> In (new_meta r) out.
Proof.
  unfold insert_new_columns. intros H. split.
  - revert L H. induction I as [|r I IH]; intros L H.
    + injection H as <-. reflexivity.
    + rewrite insert_loop_cons in H.
      destruct (negb (str_in (nc_position r) ["before"; "after"])); [discriminate|].
      destruct (anchor_index (nc_anchor r) L) as [idx|]; [|discriminate].
      etransitivity; [apply sublist_list_insert_at | apply (IH _ H)].
  - intros r Hr. apply (Permutation_in _ (Permutation_sym (insert_loop_perm _ _ _ H))).
    apply in_or_app. right. apply in_map. exact Hr.
Qed.

Lemma insert_new_columns_keeps_order_witness :
  [col_X; col_Y] `sublist_of`
    [new_meta (req "B" "X" "before"); col_X; new_meta (req "A" "X" "after"); col_Y] /\
  forall r, In r [req "A" "X" "after"; req "B" "X" "before"] ->
            In (new_meta r)
              [new_meta (req "B" "X" "before"); col_X; new_meta (req "A" "X" "after"); col_Y].
Proof.
  apply (insert_new_columns_keeps_order [col_X; col_Y]
           [req "A" "X" "after"; req "B" "X" "before"]).
  reflexivity.
Defined.

(** X3: when [insert_new_columns] raises, the requests before the failing
    one were all carried out, and the failing one either has a position
    other than "before"/"after" (checked first) or, with a valid position, an
    anchor that no column of the working list matches; the message names
    that anchor. *)
Theorem insert_new_columns_first_failure (L : list Column) (I : list NewColumn) (e : exn) :
  insert_new_columns L I = Err e ->
  exists pre r post W,
    I = (pre ++ r :: post)%list /\
    insert_new_columns L pre = Ok W /\
    ((~ valid_position r /\ e = ValueError "position must be 'before' or 'after'") \/
     (valid_position r /\
      (forall c, In c W -> ~ same_name (col_name c) (nc_anchor r)) /\
      e = ValueError ("Anchor column '" ++ nc_anchor r ++ "' not found"))).
Proof.
  unfold insert_new_columns. revert L.
  induction I as [|r I IH]; intros L H; [discriminate|].
  rewrite insert_loop_cons in H.
  destruct (str_in (nc_position r) ["before"; "after"]) eqn:Hpos; cbn [negb] in H.
  - destruct (anchor_index (nc_anchor r) L) as [idx|] eqn:Hidx.
    + destruct (IH _ H) as (pre & r' & post & W & -> & Hpre & Hcase).
      exists (r :: pre), r', post, W. split; [reflexivity|]. split; [|exact Hcase].
      rewrite insert_loop_cons, Hpos. cbn [negb]. rewrite Hidx. exact Hpre.
    + injection H as <-. exists [], r, I, L. split; [reflexivity|]. split; [reflexivity|].
      right. split; [apply str_in_position; exact Hpos|].
      split; [apply anchor_index_None; exact Hidx | reflexivity].
  - injection H as <-. exists [], r, I, L. split; [reflexivity|]. split; [reflexivity|].
    left. split; [|reflexivity].
    intros Hv. apply str_in_position in Hv. congruence.
Qed.

Lemma insert_new_columns_first_failure_witness :
  exists pre r post W,
    [req "A" "X" "after"; req "B" "Z" "before"; req "C" "X" "sideways"]
    = (pre ++ r :: post)%list /\
    insert_new_columns [col_X; col_Y] pre = Ok W /\
    ((~ valid_position r /\ ValueError "Anchor column 'Z' not found"
                            = ValueError "position must be 'before' or 'after'") \/
     (valid_position r /\
      (forall c, In c W -> ~ same_name (col_name c) (nc_anchor r)) /\
      ValueError "Anchor column 'Z' not found"
      = ValueError ("Anchor column '" ++ nc_anchor r ++ "' not found"))).
Proof.
  apply (insert_new_columns_first_failure [col_X; col_Y]
           [req "A" "X" "after"; req "B" "Z" "before"; req "C" "X" "sideways"]).
  reflexivity.
Defined.

(** X4: the case in which an anchor is written does not matter: two request
    lists that differ only in the case of their anchors give the same list,
    and fail together. *)
Theorem insert_new_columns_anchor_case (L : list Column) (I I' : list NewColumn) :
  Forall2 anchor_case_variant I I' ->
  (forall out, insert_new_columns L I = Ok out <-> insert_new_columns L I' = Ok out) /\
  ((exists e, insert_new_columns L I = Err e) <->
   (exists e', insert_new_columns L I' = Err e')).
Proof.
  unfold insert_new_columns. intros HF.
  assert (Hrel : match insert_loop L I, insert_loop L I' with
                 | Ok a, Ok b => a = b
                 | Err _, Err _ => True
                 | _, _ => False
                 end).
  { revert L. induction HF as [|r r' I I' [Hanc Hr'] HF IH]; intros L; [reflexivity|].
    rewrite !insert_loop_cons.
    destruct r as [n t nu i d p a], r' as [n' t' nu' i' d' p' a'].
    cbn [nc_name nc_type nc_nullable nc_identity nc_default nc_position nc_anchor]
      in Hanc, Hr' |- *.
    injection Hr' as -> -> -> -> -> ->.
    rewrite <- (anchor_index_same_name _ _ L Hanc).
    change (new_meta (mkNewColumn n t nu i d p a'))
      with (new_meta (mkNewColumn n t nu i d p a)).
    destruct (negb (str_in p ["before"; "after"])); [exact Logic.I|].
    destruct (anchor_index a L) as [idx|]; [|exact Logic.I].
    apply IH. }
  destruct (insert_loop L I) as [a|e], (insert_loop L I') as [b|e'];
    try contradiction.
  - subst b. split; [tauto|]. split; intros [x Hx]; discriminate.
  - split; [split; discriminate|]. split; eauto.
Qed.

Lemma insert_new_columns_anchor_case_witness :
  (forall out,
      insert_new_columns [col_X; col_Y] [req "A" "X" "after"; req "B" "a" "before"] = Ok out <->
      insert_new_columns [col_X; col_Y] [req "A" "x" "after"; req "B" "A" "before"] = Ok out) /\
  ((exists e, insert_new_columns [col_X; col_Y]
                [req "A" "X" "after"; req "B" "a" "before"] = Err e) <->
   (exists e', insert_new_columns [col_X; col_Y]
                 [req "A" "x" "after"; req "B" "A" "before"] = Err e')).
Proof.
  apply (insert_new_columns_anchor_case [col_X; col_Y]
           [req "A" "X" "after"; req "B" "a" "before"]
           [req "A" "x" "after"; req "B" "A" "before"]).
  repeat constructor.
Defined.

Lemma anchor_index_lt (anchor : string) (l : list Column) (i : nat) :
  anchor_index anchor l = Some i -> i < List.length l.
Proof.
  intros H. apply anchor_index_Some in H as (c & Hc & _).
  apply lookup_lt_Some in Hc. exact Hc.
Qed.

(** Cutting the list at [k]: a first match below [k] is in the prefix, and
    otherwise there is none in the prefix and the suffix has it [k] earlier. *)
Lemma anchor_index_cut (anchor : string) (l : list Column) (i k : nat) :
  anchor_index anchor l = Some i ->
  (i < k -> anchor_index anchor (firstn k l) = Some i) /\
  (k <= i -> anchor_index anchor (firstn k l) = None /\
             anchor_index anchor (skipn k l) = Some (i - k)).
Proof.
  intros H. pose proof (anchor_index_lt _ _ _ H) as Hlt.
  rewrite <- (firstn_skipn k l), anchor_index_app in H.
  destruct (anchor_index anchor (firstn k l)) as [j|] eqn:Hj.
  - injection H as ->. apply anchor_index_lt in Hj.
    rewrite length_take in Hj. split; [reflexivity | intros Hk; exfalso; lia].
  - destruct (anchor_index anchor (skipn k l)) as [j|]; [|discriminate].
    injection H as <-. rewrite length_take in *.
    split; [intros Hk; exfalso; lia|]. intros Hk. split; [reflexivity|]. f_equal. lia.
Qed.

(** X5: two columns requested after the same anchor end up in the reverse of
    the order of the requests: the later request sits right after the anchor,
    the earlier one behind it. *)
Theorem insert_new_columns_after_after (L : list Column) (A B : NewColumn) (i : nat) :
  anchor_index (nc_anchor A) L = Some i ->
  same_name (nc_anchor B) (nc_anchor A) ->
  nc_position A = "after" ->
  nc_position B = "after" ->
  insert_new_columns L [A; B]
  = Ok (firstn (S i) L ++ new_meta B :: new_meta A :: skipn (S i) L)%list.
Proof.
  intros HX HancB HposA HposB. unfold insert_new_columns.
  pose proof (anchor_index_lt _ _ _ HX) as Hlt.
  rewrite (insert_loop_step _ _ _ i (or_intror HposA) HX), HposA.
  cbn [String.eqb Ascii.eqb Bool.eqb]. rewrite Nat.add_1_r.
  assert (Hidx : anchor_index (nc_anchor B) (list_insert_at (S i) (new_meta A) L) = Some i).
  { unfold list_insert_at.
    rewrite (anchor_index_same_name _ _ _ HancB), anchor_index_app.
    rewrite (proj1 (anchor_index_cut _ _ _ (S i) HX)) by lia. reflexivity. }
  rewrite (insert_loop_step _ _ _ i (or_intror HposB) Hidx), HposB.
  cbn [String.eqb Ascii.eqb Bool.eqb]. rewrite Nat.add_1_r.
  cbn [insert_loop]. f_equal. unfold list_insert_at.
  rewrite take_app_length', drop_app_length' by (rewrite length_take; lia).
  reflexivity.
Qed.

Lemma insert_new_columns_after_after_witness :
  insert_new_columns [col_X; col_Y] [req "A" "X" "after"; req "B" "x" "after"]
  = Ok [col_X; new_meta (req "B" "x" "after"); new_meta (req "A" "X" "after"); col_Y].
Proof.
  apply (insert_new_columns_after_after [col_X; col_Y]
           (req "A" "X" "after") (req "B" "x" "after") 0); reflexivity.
Defined.

(** X6: two columns requested before the same anchor stay in the order of
    the requests, right in front of the anchor, provided the first new name
    is not itself a match for the anchor. *)
Theorem insert_new_columns_before_before (L : list Column) (A B : NewColumn) (i : nat) :
  anchor_index (nc_anchor A) L = Some i ->
  same_name (nc_anchor B) (nc_anchor A) ->
  ~ same_name (nc_name A) (nc_anchor A) ->
  nc_position A = "before" ->
  nc_position B = "before" ->
  insert_new_columns L [A; B]
  = Ok (firstn i L ++ new_meta A :: new_meta B :: skipn i L)%list.
Proof.
  intros HX HancB Hnew HposA HposB. unfold insert_new_columns.
  pose proof (anchor_index_lt _ _ _ HX) as Hlt.
  destruct (proj2 (anchor_index_cut _ _ _ i HX) (Nat.le_refl i)) as [Hpre Hsuf].
  rewrite Nat.sub_diag in Hsuf.
  rewrite (insert_loop_step _ _ _ i (or_introl HposA) HX), HposA.
  cbn [String.eqb Ascii.eqb Bool.eqb].
  assert (Hidx : anchor_index (nc_anchor B) (list_insert_at i (new_meta A) L) = Some (S i)).
  { unfold list_insert_at.
    rewrite (anchor_index_same_name _ _ _ HancB), anchor_index_app, Hpre.
    cbn [anchor_index new_meta col_name].
    destruct (String.eqb_spec (lower (nc_name A)) (lower (nc_anchor A))) as [Heq|_];
      [contradiction|].
    rewrite Hsuf. cbn [option_map]. rewrite length_take. f_equal. lia. }
  rewrite (insert_loop_step _ _ _ (S i) (or_introl HposB) Hidx), HposB.
  cbn [String.eqb Ascii.eqb Bool.eqb].
  cbn [insert_loop]. f_equal. unfold list_insert_at.
  change (firstn i L ++ new_meta A :: skipn i L)%list
    with (firstn i L ++ [new_meta A] ++ skipn i L)%list.
  rewrite app_assoc.
  rewrite take_app_length', drop_app_length'
    by (rewrite length_app, length_take; simpl; lia).
  rewrite <- app_assoc. reflexivity.
Qed.

Lemma insert_new_columns_before_before_witness :
  insert_new_columns [col_X; col_Y] [req "A" "Y" "before"; req "B" "y" "before"]
  = Ok [col_X; new_meta (req "A" "Y" "before"); new_meta (req "B" "y" "before"); col_Y].
Proof.
  apply (insert_new_columns_before_before [col_X; col_Y]
           (req "A" "Y" "before") (req "B" "y" "before") 1);
    try reflexivity.
  unfold same_name. simpl. discriminate.
Defined.

(** ** Further properties of the copy statement *)

Lemma mapM_total {A B} (f : A -> result B) (l : list A) :
  (forall x, In x l -> exists e, f x = Ok e) ->
  exists es, mapM f l = Ok es /\ List.length es = List.length l.
Proof.
  induction l as [|x l IH]; intros H.
  - exists []. split; reflexivity.
  - destruct (H x (or_introl eq_refl)) as (e & He).
    destruct IH as (es & Hes & Hlen); [intros y Hy; apply H; right; exact Hy|].
    exists (e :: es). simpl. rewrite He. simpl. rewrite Hes, Hlen. split; reflexivity.
Qed.

Lemma select_exprs_planned_ok (existing_cols : list Column) (new_columns : list NewColumn)
    (new_ordered_cols : list Column) :
  insert_new_columns existing_cols new_columns = Ok new_ordered_cols ->
  exists exprs,
    select_exprs existing_cols new_columns new_ordered_cols = Ok exprs /\
    List.length exprs = List.length new_ordered_cols.
Proof.
  intros Hplan. pose proof (insert_loop_perm _ _ _ Hplan) as HP.
  apply mapM_total. intros c Hc. apply (Permutation_in _ HP) in Hc.
  apply in_app_or in Hc as [Hc|Hc].
  - eexists. apply select_expr_existing. unfold lower_names.
    apply (in_map (fun c => lower (col_name c)) _ _ Hc).
  - apply in_map_iff in Hc as (r & <- & Hr).
    unfold select_expr.
    destruct (bool_decide _); [eauto|].
    destruct (find (fun n => String.eqb (lower (nc_name n))
                               (lower (col_name (new_meta r)))) new_columns)
      as [spec|] eqn:Hfind.
    + destruct (nc_default spec); eauto.
    + exfalso. pose proof (find_none _ _ Hfind r Hr) as Hno.
      cbn [new_meta col_name] in Hno. rewrite String.eqb_refl in Hno. discriminate.
Qed.

(** X7: on the list the planner returned, building the SELECT list never
    raises, whatever the names: each column is an existing one or finds a
    request of its name; the SELECT list has as many expressions as the
    INSERT has columns, one per existing column and one per request. *)
Theorem select_exprs_total (existing_cols : list Column) (new_columns : list NewColumn)
    (new_ordered_cols : list Column) :
  insert_new_columns existing_cols new_columns = Ok new_ordered_cols ->
  exists exprs,
    select_exprs existing_cols new_columns new_ordered_cols = Ok exprs /\
    List.length exprs = List.length (insert_cols new_ordered_cols) /\
    List.length exprs = List.length existing_cols + List.length new_columns.
Proof.
  intros Hplan.
  destruct (select_exprs_planned_ok _ _ _ Hplan) as (exprs & Hex & Hlen).
  exists exprs. split; [exact Hex|].
  unfold insert_cols. rewrite length_map, Hlen. split; [reflexivity|].
  rewrite (Permutation_length (insert_loop_perm _ _ _ Hplan)), length_app, length_map.
  reflexivity.
Qed.

Lemma select_exprs_total_witness :
  exists exprs,
    select_exprs [col_A] [req "a" "A" "after"; req "A" "a" "before"]
      [col_A; new_meta (req "A" "a" "before"); new_meta (req "a" "A" "after")] = Ok exprs /\
    List.length exprs
    = List.length (insert_cols
        [col_A; new_meta (req "A" "a" "before"); new_meta (req "a" "A" "after")]) /\
    List.length exprs = 1 + 2.
Proof.
  apply (select_exprs_total [col_A] [req "a" "A" "after"; req "A" "a" "before"]).
  reflexivity.
Defined.

Lemma has_identity_perm (l l' : list Column) :
  Permutation l l' -> has_identity l = has_identity l'.
Proof.
  intros HP. apply eq_true_iff_eq. rewrite !has_identity_iff.
  split; intros (c & Hc & Hid); exists c; split; auto.
  - apply (Permutation_in _ HP Hc).
  - apply (Permutation_in _ (Permutation_sym HP) Hc).
Qed.

(** X8: the planned list has an identity column, and so the copy is wrapped
    in IDENTITY_INSERT, exactly when an existing column is an identity column
    or a request asks for one with "identity": True. *)
Theorem has_identity_planned (existing_cols : list Column) (new_columns : list NewColumn)
    (new_ordered_cols : list Column) :
  insert_new_columns existing_cols new_columns = Ok new_ordered_cols ->
  (has_identity new_ordered_cols = true <->
   (exists c, In c existing_cols /\ col_is_identity c = true) \/
   (exists r, In r new_columns /\ nc_identity r = Some true)).
Proof.
  intros Hplan. rewrite (has_identity_perm _ _ (insert_loop_perm _ _ _ Hplan)).
  rewrite has_identity_iff. split.
  - intros (c & Hc & Hid). apply in_app_or in Hc as [Hc|Hc]; [left; eauto|].
    right. apply in_map_iff in Hc as (r & <- & Hr). exists r. split; [exact Hr|].
    unfold new_meta in Hid. cbn [col_is_identity] in Hid.
    destruct (nc_identity r) as [[]|]; [reflexivity | discriminate | discriminate].
  - intros [(c & Hc & Hid)|(r & Hr & Hid)].
    + exists c. split; [apply in_or_app; left; exact Hc | exact Hid].
    + exists (new_meta r). split; [apply in_or_app; right; apply in_map; exact Hr|].
      unfold new_meta. cbn [col_is_identity]. rewrite Hid. reflexivity.
Qed.

Lemma has_identity_planned_witness :
  has_identity [col_Id; new_meta req_CreatedAt; col_Name] = true <->
  (exists c, In c [col_Id; col_Name] /\ col_is_identity c = true) \/
  (exists r, In r [req_CreatedAt] /\ nc_identity r = Some true).
Proof.
  apply (has_identity_planned [col_Id; col_Name] [req_CreatedAt]). reflexivity.
Defined.





(** ** Further properties of the rebuild *)

Lemma sbind_ok {A B} (m : Session A) (k : A -> Session B) (tr tr' : list event) (a : A) :
  m tr = (tr', Ok a) -> sbind m k tr = k a tr'.
Proof. intros H. unfold sbind. rewrite H. reflexivity. Qed.

Lemma sbind_err {A B} (m : Session A) (k : A -> Session B) (tr tr' : list event) (e : exn) :
  m tr = (tr', Err e) -> sbind m k tr = (tr', Err e).
Proof. intros H. unfold sbind. rewrite H. reflexivity. Qed.

Lemma execute_accepted (cursor : Cursor) (sql : string) (params : list string)
    (tr : list event) :
  refuses cursor sql = false ->
  execute cursor sql params tr
  = ((tr ++ [Execute sql params])%list, Ok (rows_of cursor sql params)).
Proof. intros H. unfold execute. rewrite H. reflexivity. Qed.

Lemma execute_refused (cursor : Cursor) (sql : string) (params : list string)
    (tr : list event) :
  refuses cursor sql = true ->
  execute cursor sql params tr = (tr, Err (DatabaseError sql)).
Proof. intros H. unfold execute. rewrite H. reflexivity. Qed.

Lemma fetch_ordered_metadata_accepted (cursor : Cursor) (schema table : string)
    (tr : list event) :
  refuses cursor metadata_sql = false ->
  fetch_ordered_metadata cursor schema table tr
  = ((tr ++ [Execute metadata_sql [schema; table]])%list,
     Ok (map column_of_row (rows_of cursor metadata_sql [schema; table]))).
Proof.
  intros H. unfold fetch_ordered_metadata.
  rewrite (sbind_ok _ _ _ _ _ (execute_accepted _ _ _ _ H)).
  unfold ret. rewrite cols_of_rows_map. reflexivity.
Qed.

(** Once the metadata is read, the plan made and the SELECT list built, the
    rebuild is the run of the four statements and the commit. *)
Lemma rebuild_after_planning (cursor : Cursor) (schema table : string)
    (new_columns : list NewColumn) (tmp_suffix : string) (tr : list event)
    (planned : list Column) (exprs : list string) :
  let existing := map column_of_row (rows_of cursor metadata_sql [schema; table]) in
  refuses cursor metadata_sql = false ->
  insert_new_columns existing new_columns = Ok planned ->
  select_exprs existing new_columns planned = Ok exprs ->
  rebuild_with_inferred_and_inserted_columns cursor schema table new_columns tmp_suffix tr
  = (execute cursor (create_sql (full_name schema (table ++ tmp_suffix)) planned) [] ;;;
     execute cursor (insert_sql (full_name schema table)
                       (full_name schema (table ++ tmp_suffix)) planned exprs) [] ;;;
     execute cursor (drop_sql (full_name schema table)) [] ;;;
     execute cursor (rename_sql (full_name schema (table ++ tmp_suffix)) table) [] ;;;
     commit) (tr ++ [Execute metadata_sql [schema; table]])%list.
Proof.
  intros existing Hacc Hplan Hsel.
  unfold rebuild_with_inferred_and_inserted_columns.
  rewrite (sbind_ok _ _ _ _ _ (fetch_ordered_metadata_accepted _ _ _ _ Hacc)).
  fold existing.
  rewrite (sbind_ok (lift (insert_new_columns existing new_columns)) _ _ _ planned)
    by (unfold lift; rewrite Hplan; reflexivity).
  rewrite (sbind_ok (lift (select_exprs existing new_columns planned)) _ _ _ exprs)
    by (unfold lift; rewrite Hsel; reflexivity).
  reflexivity.
Qed.

(** X11: when the plan succeeds and the server accepts every statement, the
    rebuild runs, in this order and nothing else, the catalog query, the
    CREATE of the temporary table, the copy batch, the DROP of the original,
    the rename, and then commits. *)
Theorem rebuild_success_trace (cursor : Cursor) (schema table : string)
    (new_columns : list NewColumn) (tmp_suffix : string) (tr : list event)
    (planned : list Column) :
  (forall sql, refuses cursor sql = false) ->
  insert_new_columns (map column_of_row (rows_of cursor metadata_sql [schema; table]))
    new_columns = Ok planned ->
  exists exprs,
    select_exprs (map column_of_row (rows_of cursor metadata_sql [schema; table]))
      new_columns planned = Ok exprs /\
    rebuild_with_inferred_and_inserted_columns cursor schema table new_columns tmp_suffix tr
    = ((tr ++ Execute metadata_sql [schema; table]
           :: map (fun q => Execute q [])
                (rebuild_statements schema table tmp_suffix planned exprs)
           ++ [Commit])%list,
       Ok tt).
Proof.
  intros Hacc Hplan.
  destruct (select_exprs_planned_ok _ _ _ Hplan) as (exprs & Hsel & _).
  exists exprs. split; [exact Hsel|].
  rewrite (rebuild_after_planning _ _ _ _ _ _ planned exprs (Hacc _) Hplan Hsel).
  repeat (erewrite sbind_ok by (apply execute_accepted, Hacc)).
  unfold commit, rebuild_statements. cbn [map app].
  rewrite <- !app_assoc. reflexivity.
Qed.

Lemma rebuild_success_trace_witness :
  exists exprs,
    select_exprs (map column_of_row (rows_of cursor_T metadata_sql ["dbo"; "T"]))
      [req_CreatedAt] [col_Id; new_meta req_CreatedAt; col_Name] = Ok exprs /\
    rebuild_with_inferred_and_inserted_columns cursor_T "dbo" "T" [req_CreatedAt]
      "_TmpReorder" []
    = (([] ++ Execute metadata_sql ["dbo"; "T"]
           :: map (fun q => Execute q [])
                (rebuild_statements "dbo" "T" "_TmpReorder"
                   [col_Id; new_meta req_CreatedAt; col_Name] exprs)
           ++ [Commit])%list,
       Ok tt).
Proof.
  apply (rebuild_success_trace cursor_T "dbo" "T" [req_CreatedAt] "_TmpReorder" []
           [col_Id; new_meta req_CreatedAt; col_Name]).
  - intros sql. reflexivity.
  - vm_compute. reflexivity.
Defined.

(** X12: when the server rejects one of the four generated statements, the
    rebuild stops there: the statements before it have run, the exception of
    the rejected [execute] leaves the rebuild as it is, no statement after it
    is run and nothing is committed.  So a rejected copy leaves the original
    table in place (and the temporary table behind), and a rejected rename
    comes after the original is dropped. *)
Theorem rebuild_stops_at_first_refusal (cursor : Cursor) (schema table : string)
    (new_columns : list NewColumn) (tmp_suffix : string) (tr : list event)
    (planned : list Column) (exprs pre post : list string) (s : string) :
  refuses cursor metadata_sql = false ->
  insert_new_columns (map column_of_row (rows_of cursor metadata_sql [schema; table]))
    new_columns = Ok planned ->
  select_exprs (map column_of_row (rows_of cursor metadata_sql [schema; table]))
    new_columns planned = Ok exprs ->
  rebuild_statements schema table tmp_suffix planned exprs = (pre ++ s :: post)%list ->
  (forall q, In q pre -> refuses cursor q = false) ->
  refuses cursor s = true ->
  let ran :=
    (tr ++ Execute metadata_sql [schema; table] :: map (fun q => Execute q []) pre)%list in
  exists e,
    execute cursor s [] ran = (ran, Err e) /\
    rebuild_with_inferred_and_inserted_columns cursor schema table new_columns tmp_suffix tr
    = (ran, Err e).
Proof.
  intros Hacc Hplan Hsel Hsplit Hpre Hs ran. subst ran.
  exists (DatabaseError s). split; [apply execute_refused, Hs|].
  rewrite (rebuild_after_planning _ _ _ _ _ _ planned exprs Hacc Hplan Hsel).
  unfold rebuild_statements in Hsplit.
  destruct pre as [|q1 [|q2 [|q3 [|q4 [|q5 pre]]]]]; simpl in Hsplit;
    try (injection Hsplit as ?; subst;
         repeat (erewrite sbind_ok
                   by (apply execute_accepted, Hpre; simpl; auto));
         erewrite sbind_err by (apply execute_refused, Hs);
         cbn [map]; rewrite <- ?app_assoc; reflexivity).
  - injection Hsplit as _ _ _ _ H. destruct post; discriminate.
  - injection Hsplit as _ _ _ _ H. destruct pre; discriminate.
Qed.

Lemma rebuild_stops_at_first_refusal_witness :
  let ran :=
    ([] ++ Execute metadata_sql ["dbo"; "T"]
        :: map (fun q => Execute q [])
             [ create_sql "[dbo].[T_TmpReorder]" [col_Id; new_meta req_CreatedAt; col_Name];
               insert_sql "[dbo].[T]" "[dbo].[T_TmpReorder]"
                 [col_Id; new_meta req_CreatedAt; col_Name]
                 ["[Id]"; "SYSUTCDATETIME() AS [CreatedAt]"; "[Name]"];
               "DROP TABLE [dbo].[T];" ])%list in
  exists e,
    execute (cursor_T_refusing (String.prefix "EXEC sp_rename"))
      "EXEC sp_rename N'[dbo].[T_TmpReorder]', N'T', 'OBJECT';" [] ran = (ran, Err e) /\
    rebuild_with_inferred_and_inserted_columns
      (cursor_T_refusing (String.prefix "EXEC sp_rename")) "dbo" "T" [req_CreatedAt]
      "_TmpReorder" []
    = (ran, Err e).
Proof.
  apply (rebuild_stops_at_first_refusal
           (cursor_T_refusing (String.prefix "EXEC sp_rename")) "dbo" "T" [req_CreatedAt]
           "_TmpReorder" [] [col_Id; new_meta req_CreatedAt; col_Name]
           ["[Id]"; "SYSUTCDATETIME() AS [CreatedAt]"; "[Name]"]
           _ []).
  - reflexivity.
  - vm_compute. reflexivity.
  - vm_compute. reflexivity.
  - reflexivity.
  - intros q [<-|[<-|[<-|[]]]]; vm_compute; reflexivity.
  - vm_compute. reflexivity.
Defined.

(** X13: for a table of which the catalog shows no column, any non-empty
    request list makes the rebuild raise a ValueError (there is no column an
    anchor could match) after the catalog query alone: nothing is created,
    copied, dropped or renamed. *)
Theorem rebuild_missing_table_with_requests (cursor : Cursor) (schema table : string)
    (new_columns : list NewColumn) (tmp_suffix : string) (tr : list event) :
  refuses cursor metadata_sql = false ->
  rows_of cursor metadata_sql [schema; table] = [] ->
  new_columns <> [] ->
  exists msg,
    rebuild_with_inferred_and_inserted_columns cursor schema table new_columns tmp_suffix tr
    = ((tr ++ [Execute metadata_sql [schema; table]])%list, Err (ValueError msg)).
Proof.
  intros Hacc Hrows Hne.
  destruct new_columns as [|r rest]; [contradiction|].
  unfold rebuild_with_inferred_and_inserted_columns.
  rewrite (sbind_ok _ _ _ _ _ (fetch_ordered_metadata_accepted _ _ _ _ Hacc)).
  rewrite Hrows. cbn [map].
  assert (exists msg, insert_new_columns [] (r :: rest) = Err (ValueError msg)) as [msg Hmsg].
  { unfold insert_new_columns. rewrite insert_loop_cons.
    destruct (negb (str_in (nc_position r) ["before"; "after"])); eexists; reflexivity. }
  exists msg. apply sbind_err. unfold lift. rewrite Hmsg. reflexivity.
Qed.

Lemma rebuild_missing_table_with_requests_witness :
  exists msg,
    rebuild_with_inferred_and_inserted_columns cursor_T "dbo" "Missing"
      [req "A" "Id" "after"] "_TmpReorder" []
    = (([] ++ [Execute metadata_sql ["dbo"; "Missing"]])%list, Err (ValueError msg)).
Proof.
  apply (rebuild_missing_table_with_requests cursor_T "dbo" "Missing"
           [req "A" "Id" "after"] "_TmpReorder" []).
  - reflexivity.
  - vm_compute. reflexivity.
  - discriminate.
Defined.

(** X14: for a table of which the catalog shows no column and an empty
    request list nothing stops the rebuild: with a server that accepts the
    statements it sends a CREATE TABLE with an empty column list and an
    INSERT..SELECT with empty lists, then drops the original, renames and
    commits. *)
Theorem rebuild_missing_table_no_requests (cursor : Cursor) (schema table : string)
    (tmp_suffix : string) (tr : list event) :
  (forall sql, refuses cursor sql = false) ->
  rows_of cursor metadata_sql [schema; table] = [] ->
  rebuild_with_inferred_and_inserted_columns cursor schema table [] tmp_suffix tr
  = ((tr ++
      [ Execute metadata_sql [schema; table];
        Execute ("CREATE TABLE " ++ full_name schema (table ++ tmp_suffix) ++ " ("
                 ++ nl ++ "    " ++ nl ++ ");") [];
        Execute ("INSERT INTO " ++ full_name schema (table ++ tmp_suffix) ++ " ()" ++ nl
                 ++ "SELECT " ++ nl
                 ++ "FROM " ++ full_name schema table ++ " WITH (HOLDLOCK TABLOCKX);") [];
        Execute ("DROP TABLE " ++ full_name schema table ++ ";") [];
        Execute (rename_sql (full_name schema (table ++ tmp_suffix)) table) [];
        Commit ])%list,
     Ok tt).
Proof.
  intros Hacc Hrows.
  rewrite (rebuild_after_planning _ _ _ _ _ _ [] [] (Hacc _))
    by (rewrite Hrows; reflexivity).
  repeat (erewrite sbind_ok by (apply execute_accepted, Hacc)).
  unfold commit. rewrite <- !app_assoc. reflexivity.
Qed.

Lemma rebuild_missing_table_no_requests_witness :
  rebuild_with_inferred_and_inserted_columns cursor_T "dbo" "Missing" [] "_Tmp" []
  = (([] ++
      [ Execute metadata_sql ["dbo"; "Missing"];
        Execute ("CREATE TABLE " ++ full_name "dbo" ("Missing" ++ "_Tmp") ++ " ("
                 ++ nl ++ "    " ++ nl ++ ");") [];
        Execute ("INSERT INTO " ++ full_name "dbo" ("Missing" ++ "_Tmp") ++ " ()" ++ nl
                 ++ "SELECT " ++ nl
                 ++ "FROM " ++ full_name "dbo" "Missing" ++ " WITH (HOLDLOCK TABLOCKX);") [];
        Execute ("DROP TABLE " ++ full_name "dbo" "Missing" ++ ";") [];
        Execute (rename_sql (full_name "dbo" ("Missing" ++ "_Tmp")) "Missing") [];
        Commit ])%list,
     Ok tt).
Proof.
  apply (rebuild_missing_table_no_requests cursor_T "dbo" "Missing" "_Tmp" []).
  - intros sql. reflexivity.
  - vm_compute. reflexivity.
Defined.

(** X15: the metadata read gives one descriptor per catalog row, in the
    order of the rows, with the row's name, nullability, identity flag and
    default text and the reconstructed type; when the server rejects the
    catalog query the read raises and nothing has run. *)
Theorem fetch_ordered_metadata_rows (cursor : Cursor) (schema table : string)
    (tr : list event) :
  (refuses cursor metadata_sql = false ->
   exists cols,
     fetch_ordered_metadata cursor schema table tr
     = ((tr ++ [Execute metadata_sql [schema; table]])%list, Ok cols) /\
     Forall2 (fun row col =>
                col_name col = column_name row /\
                col_type col = type_str row /\
                col_is_nullable col = row_is_nullable row /\
                col_is_identity col = row_is_identity row /\
                col_default col = default_definition row)
       (rows_of cursor metadata_sql [schema; table]) cols) /\
  (refuses cursor metadata_sql = true ->
   fetch_ordered_metadata cursor schema table tr = (tr, Err (DatabaseError metadata_sql))).
Proof.
  split; intros H.
  - eexists. split; [apply fetch_ordered_metadata_accepted, H|].
    induction (rows_of cursor metadata_sql [schema; table]) as [|row rows IH];
      constructor; [repeat split | exact IH].
  - unfold fetch_ordered_metadata. apply sbind_err. apply execute_refused, H.
Qed.

Lemma fetch_ordered_metadata_rows_witness :
  fetch_ordered_metadata (cursor_T_refusing (fun _ => true)) "dbo" "T" []
  = ([], Err (DatabaseError metadata_sql)).
Proof.
  apply (proj2 (fetch_ordered_metadata_rows
                  (cursor_T_refusing (fun _ => true)) "dbo" "T" [])).
  reflexivity.
Defined.
